(** * Embroidery categorizer: a shallow embedding of the Python sources

    The development follows the layout of the repository:
    - [Py]          the fragments of Python semantics the code relies on
                    (exceptions, [str] methods, [float] arithmetic, [min],
                    [int]);
    - [Domain]      [domain/value_objects.py], [domain/entities.py];
    - [Converter]   [infrastructure/pyembroidery_converter.py];
    - [Strategy]    [infrastructure/openai_strategy.py],
                    [application/strategies.py];
    - [Repository]  [infrastructure/file_system_repository.py];
    - [Service]     [application/services.py];
    - [UseCase]     [application/use_cases.py];
    - [Spec]        the predicates the statements are written with;
    - [Scenarios]   concrete batches;
    - [LanguageMapper]  [domain/language_mappings.py];
    - [StrategyTrace]   the supported categories and the retry loop with
                        its requests and waits;
    - [Props]       further predicates;
    - [Unicode]     [Category] of [domain/value_objects.py] once more, on
                    text of arbitrary code points;
    - [Rounding]    rounding to nearest on integer values, for the facts
                    about binary64 arithmetic.
    The modules that follow prove facts about these definitions and the
    properties of the specification, component by component.

    Python floats are IEEE 754 binary64 numbers, Rocq's primitive floats;
    the conversions between [int] and [float] and the division of two
    [int]s are computed on their [SpecFloat] view.  Stitch coordinates
    are [int]s.

    Text comes in two models.  The classification pipeline works on
    strings of code points below 256 (Rocq's [ascii]).  The properties of
    the normalization itself are proved on sequences of arbitrary code
    points, with the white-space table behind [str.strip] and the
    lower-casing behind [str.lower] as parameters of which the
    properties [Unicode.tables_ok] are used; [ModelFacts] shows the
    string model to be the instance of that on code points below 256.

    External collaborators (the file system, the imaging library, the
    remote vision model, [pyembroidery.read]) are oracles that the
    environment records below supply. *)

From Stdlib Require Import ZArith List String Ascii Bool Lia Floats.
From Stdlib Require Uint63.
From stdpp Require Import base gmap strings list.

Local Open Scope Z_scope.

(* ===================================================================== *)
(** ** Python fragments                                                   *)
(* ===================================================================== *)

Module Py.

(** The exceptions the sources raise or catch.  Everything is a subclass
    of [Exception]; [except Exception] catches each of them. *)
Inductive exn : Type :=
| ValueError (msg : string)
| RuntimeError (msg : string)
| ConversionError (msg : string)
| RepositoryError (msg : string)
| OtherError (msg : string).

(** [str(e)] *)
Definition str_exn (e : exn) : string :=
  match e with
  | ValueError m | RuntimeError m | ConversionError m
  | RepositoryError m | OtherError m => m
  end.

(** A call either returns a value or raises. *)
Inductive result (A : Type) : Type :=
| Returns (a : A)
| Raises (e : exn).
Arguments Returns {A} a.
Arguments Raises {A} e.

Definition bind {A B : Type} (r : result A) (k : A → result B) : result B :=
  match r with
  | Returns a => k a
  | Raises e => Raises e
  end.

(** [try: r  except Exception as e: h e] *)
Definition try_except {A : Type} (r : result A) (h : exn → result A) : result A :=
  match r with
  | Returns a => Returns a
  | Raises e => h e
  end.

Definition raised {A : Type} (r : result A) : Prop := ∃ e, r = Raises e.

(** *** [str] methods *)

Definition code (c : ascii) : N := N_of_ascii c.

(** [c.isspace()] for a code point below 256: TAB..CR, FS..US, SPACE,
    NEL (0x85) and NBSP (0xA0). *)
Definition isspace (c : ascii) : bool :=
  let n := code c in
  ((9 <=? n) && (n <=? 13) || (28 <=? n) && (n <=? 32)
   || (n =? 133) || (n =? 160))%N.

(** [c.lower()] for a code point below 256: A..Z and the Latin-1 capitals
    0xC0..0xDE other than the multiplication sign 0xD7. *)
Definition lower_char (c : ascii) : ascii :=
  let n := code c in
  if ((65 <=? n) && (n <=? 90)
      || (192 <=? n) && (n <=? 222) && negb (n =? 215))%N
  then ascii_of_N (n + 32) else c.

Fixpoint lower (s : string) : string :=
  match s with
  | EmptyString => EmptyString
  | String c r => String (lower_char c) (lower r)
  end.

Fixpoint lstrip (s : string) : string :=
  match s with
  | EmptyString => EmptyString
  | String c r => if isspace c then lstrip r else s
  end.

Fixpoint rstrip (s : string) : string :=
  match s with
  | EmptyString => EmptyString
  | String c r =>
      match rstrip r with
      | EmptyString => if isspace c then EmptyString else String c EmptyString
      | r' => String c r'
      end
  end.

(** [s.strip()] *)
Definition strip (s : string) : string := rstrip (lstrip s).

(** [s.replace(old, new)] for a one-character [old]. *)
Fixpoint replace (old : ascii) (new : string) (s : string) : string :=
  match s with
  | EmptyString => EmptyString
  | String c r =>
      if Ascii.eqb c old then new +:+ replace old new r
      else String c (replace old new r)
  end.

(** Truth value of a [str]: non-empty. *)
Definition truthy (s : string) : bool :=
  match s with EmptyString => false | _ => true end.

(** *** Numbers

    A Python [float] is an IEEE 754 binary64 number, Rocq's primitive
    [float]; an [int] is unbounded.  Arithmetic rounds to nearest, ties to
    even.  [OverflowError] and [ZeroDivisionError] are among the
    exceptions that [except Exception] catches; they are [OtherError]
    here. *)

Definition spec_of_int (n : Z) : spec_float :=
  match n with
  | Z0 => S754_zero false
  | Zpos p => S754_finite false p 0
  | Zneg p => S754_finite true p 0
  end.

(** The conversion of an [int] operand to [float]: the nearest double, or
    [OverflowError] when that is out of range. *)
Definition float_of_int (n : Z) : result float :=
  match binary_normalize prec emax n 0 false with
  | S754_infinity _ => Raises (OtherError "int too large to convert to float")
  | f => Returns (SF2Prim f)
  end.

(** [a / b] on two [int]s: the double nearest to the quotient. *)
Definition true_div (a b : Z) : result float :=
  if b =? 0 then Raises (OtherError "division by zero")
  else
    match SFdiv prec emax (spec_of_int a) (spec_of_int b) with
    | S754_infinity _ =>
        Raises (OtherError "integer division result too large for a float")
    | q => Returns (SF2Prim q)
    end.

(** [n * x] for an [int] [n] and a [float] [x]. *)
Definition int_mul_float (n : Z) (x : float) : result float :=
  bind (float_of_int n) (λ f, Returns (f * x)%float).

(** [min(a, b, c)]: the first of the smallest arguments; a later argument
    replaces the running result only when strictly smaller. *)
Definition min3 (a b c : float) : float :=
  let r := a in
  let r := if (b <? r)%float then b else r in
  let r := if (c <? r)%float then c else r in
  r.

(** [int(x)] on a float: truncation towards zero; it raises on a NaN and
    on an infinity. *)
Definition int (x : float) : result Z :=
  match Prim2SF x with
  | S754_nan => Raises (ValueError "cannot convert float NaN to integer")
  | S754_infinity _ =>
      Raises (OtherError "cannot convert float infinity to integer")
  | S754_zero _ => Returns 0
  | S754_finite s m e =>
      let magnitude := Z.shiftl (Zpos m) e in
      Returns (if s then - magnitude else magnitude)
  end.

End Py.

#[global] Instance result_ret : MRet Py.result := @Py.Returns.
#[global] Instance result_bind : MBind Py.result := λ A B k r, Py.bind r k.

(* ===================================================================== *)
(** ** domain/value_objects.py, domain/entities.py                        *)
(* ===================================================================== *)

Module Domain.
Import Py.

(** A [FilePath] is identified with its string. *)
Definition FilePath := string.

Record Category : Type := mkCategory {
  name : string;
  confidence : float
}.

(** [0.0 <= confidence <= 1.0] *)
Definition confidence_in_range (c : float) : bool :=
  PrimFloat.leb 0%float c && PrimFloat.leb c 1%float.

(** [Category(name, confidence)]: the dataclass constructor followed by
    [__post_init__]. *)
Definition Category_new (name : string) (confidence : float) : result Category :=
  if negb (truthy name) || negb (truthy (strip name)) then
    Raises (ValueError "Category name cannot be empty")
  else if negb (confidence_in_range confidence) then
    Raises (ValueError "Confidence must be between 0.0 and 1.0")
  else
    let normalized_name := replace " " "_" (lower (strip name)) in
    Returns (mkCategory normalized_name confidence).

(** The thirteen characters that [from_ai_response] removes, in the order
    of the source's string literal (full stop, comma, ..., the double
    quote as code 34, the three pairs of brackets). *)
Definition punctuation : list ascii :=
  ["."; ","; "!"; "?"; ";"; ":"; "034"; "("; ")"; "["; "]"; "{"; "}"]%char.

(** [Category.from_ai_response(ai_response, confidence)] *)
Definition from_ai_response (ai_response : string) (confidence : float)
  : result Category :=
  let clean_name := lower (strip ai_response) in
  let clean_name :=
    fold_left (fun acc char => replace char "" acc) punctuation clean_name in
  Category_new clean_name confidence.

(** [Category.is_valid] *)
Definition is_valid (c : Category) : bool :=
  truthy (name c) && truthy (strip (name c)).

Record EmbroideryFile : Type := mkFile {
  original_path : FilePath;
  file_name : string;
  category : option Category;
  jpg_path : option FilePath
}.

Definition assign_category (f : EmbroideryFile) (c : Category) : EmbroideryFile :=
  mkFile (original_path f) (file_name f) (Some c) (jpg_path f).

Definition set_jpg_path (f : EmbroideryFile) (p : FilePath) : EmbroideryFile :=
  mkFile (original_path f) (file_name f) (category f) (Some p).

End Domain.

(* ===================================================================== *)
(** ** infrastructure/pyembroidery_converter.py                           *)
(* ===================================================================== *)

Module Converter.
Import Py.

(** Command codes of the [pyembroidery] library (its [EmbConstant]
    module); the converter only compares them for equality. *)
Definition STITCH : Z := 0.
Definition JUMP : Z := 1.
Definition TRIM : Z := 2.
Definition STOP : Z := 3.
Definition COLOR_CHANGE : Z := 5.

(** A stitch is the Python list [[x, y, command]] that [pyembroidery]
    stores; the converter guards against shorter lists itself. *)
Definition stitch : Type := list Z.

Record Config : Type := mkConfig {
  image_size : Z * Z;
  background_color : string
}.

(** The defaults of [PyEmbroideryConverter.__init__]. *)
Definition default_config : Config := mkConfig (800, 600) "white".

Definition padding : Z := 50.

Definition point : Type := (Z * Z)%type.

(** One call [draw.line([p, q], fill=color, width=w)]. *)
Record line : Type := mkLine {
  line_from : point;
  line_to : point;
  fill : string;
  width : Z
}.

Record Image : Type := mkImage {
  img_width : Z;
  img_height : Z;
  background : string;
  lines : list line
}.

(** [[stitch[0] for stitch in stitches if len(stitch) >= 2]] *)
Fixpoint x_coords (stitches : list stitch) : list Z :=
  match stitches with
  | [] => []
  | (x :: _ :: _) :: rest => x :: x_coords rest
  | _ :: rest => x_coords rest
  end.

(** [[stitch[1] for stitch in stitches if len(stitch) >= 2]] *)
Fixpoint y_coords (stitches : list stitch) : list Z :=
  match stitches with
  | [] => []
  | (_ :: y :: _) :: rest => y :: y_coords rest
  | _ :: rest => y_coords rest
  end.

(** [min(l)] and [max(l)] of a non-empty list of integers. *)
Definition list_min (l : list Z) : Z :=
  match l with
  | [] => 0
  | x :: r => fold_left Z.min r x
  end.

Definition list_max (l : list Z) : Z :=
  match l with
  | [] => 0
  | x :: r => fold_left Z.max r x
  end.

(** The scale factor computed from the pattern's extent. *)
Definition scale_factor (cfg : Config) (pattern_width pattern_height : Z)
  : result float :=
  if (pattern_width >? 0) && (pattern_height >? 0) then
    scale_x ← true_div (fst (image_size cfg) - 2 * padding) pattern_width;
    scale_y ← true_div (snd (image_size cfg) - 2 * padding) pattern_height;
    Returns (min3 scale_x scale_y 1%float)
  else Returns 1%float.

(** [int(extent * scale) + 2 * padding] *)
Definition canvas_extent (extent : Z) (scale : float) : result Z :=
  scaled ← int_mul_float extent scale;
  n ← int scaled;
  Returns (n + 2 * padding).

(** [int((v - min_v) * scale) + padding] *)
Definition adjust (min_v : Z) (scale : float) (v : Z) : result Z :=
  scaled ← int_mul_float (v - min_v) scale;
  n ← int scaled;
  Returns (n + padding).

Definition colors : list string :=
  ["black"; "red"; "blue"; "green"; "purple"; "orange"]%string.

(** The variables of the drawing loop, with the lines drawn so far. *)
Record pen : Type := mkPen {
  prev_point : option point;
  stitch_color : string;
  drawn : list line
}.

Definition initial_pen : pen := mkPen None "black" [].

(** One iteration of [for i, stitch in enumerate(stitches)]; the two
    conversions to canvas coordinates come before the command is looked
    at, and either may raise. *)
Definition draw_step (min_x min_y : Z) (scale : float) (i : Z) (st : pen) (s : stitch)
  : result pen :=
  match s with
  | x :: y :: rest =>
      let command := match rest with c :: _ => c | [] => STITCH end in
      adjusted_x ← adjust min_x scale x;
      adjusted_y ← adjust min_y scale y;
      let current_point := (adjusted_x, adjusted_y) in
      if command =? COLOR_CHANGE then
        let color_index := (i / 100) mod Z.of_nat (length colors) in
        Returns (mkPen (Some current_point)
                       (nth (Z.to_nat color_index) colors EmptyString)
                       (drawn st))
      else if command =? JUMP then
        Returns (mkPen (Some current_point) (stitch_color st) (drawn st))
      else if (command =? TRIM) || (command =? STOP) then
        Returns (mkPen None (stitch_color st) (drawn st))
      else
        let drawn' :=
          match prev_point st with
          | Some p =>
              if command =? STITCH
              then drawn st ++ [mkLine p current_point (stitch_color st) 2]
              else drawn st
          | None => drawn st
          end in
        Returns (mkPen (Some current_point) (stitch_color st) drawn')
  | _ => Returns st
  end.

Fixpoint draw_stitches (min_x min_y : Z) (scale : float) (i : Z)
         (stitches : list stitch) (st : pen) : result pen :=
  match stitches with
  | [] => Returns st
  | s :: rest =>
      st' ← draw_step min_x min_y scale i st s;
      draw_stitches min_x min_y scale (i + 1) rest st'
  end.

(** What the imaging library and the file system do for one conversion:
    [Image.new('RGB', (width, height), color)], the [mkdir] of the output
    directory, and [img.save(path, "JPEG", quality=95)].  Drawing a line
    on an image that exists does not raise. *)
Record Pil : Type := mkPil {
  Image_new : Z → Z → string → result unit;
  mkdir : result unit;
  save : Image → result unit
}.

(** The body of [convert_pes_to_jpg] after the pattern is read: [None]
    when the method returns [False] without an image, [Some img] when it
    has saved [img] and returns [True]. *)
Definition render (cfg : Config) (pil : Pil) (stitches : list stitch)
  : result (option Image) :=
  match stitches with
  | [] => Returns None
  | _ =>
      let xs := x_coords stitches in
      let ys := y_coords stitches in
      match xs, ys with
      | [], _ | _, [] => Returns None
      | _, _ =>
          let min_x := list_min xs in
          let max_x := list_max xs in
          let min_y := list_min ys in
          let max_y := list_max ys in
          let pattern_width := max_x - min_x in
          let pattern_height := max_y - min_y in
          scale ← scale_factor cfg pattern_width pattern_height;
          img_width ← canvas_extent pattern_width scale;
          img_height ← canvas_extent pattern_height scale;
          _ ← Image_new pil img_width img_height (background_color cfg);
          st ← draw_stitches min_x min_y scale 0 stitches initial_pen;
          let img := mkImage img_width img_height (background_color cfg) (drawn st) in
          _ ← mkdir pil;
          _ ← save pil img;
          Returns (Some img)
      end
  end.

(** [convert_pes_to_jpg]: [pattern] is what [pyembroidery.read] and the
    access to its [stitches] do on the file; any exception, of the read
    or of a later step, is re-raised as a [ConversionError]. *)
Definition convert_pes_to_jpg (cfg : Config) (pil : Pil)
           (pattern : result (list stitch)) : result (option Image) :=
  try_except
    (stitches ← pattern; render cfg pil stitches)
    (λ e, Raises (ConversionError ("Conversion error: " +:+ str_exn e))).


End Converter.

(* ===================================================================== *)
(** ** infrastructure/openai_strategy.py, application/strategies.py       *)
(* ===================================================================== *)

Module Strategy.
Import Py Domain.

(** What the remote service and the image file do for one call of
    [categorize_image]. *)
Record Backend : Type := mkBackend {
  (** whether the test request of [is_available] goes through *)
  probe : bool;
  (** whether [open(image).read()] succeeds *)
  image_readable : bool;
  (** attempt [k]: [response.choices[0].message.content], or the
      exception of the request *)
  completion : nat → result string
}.

(** [Category("other")] *)
Definition other : result Category := Category_new "other" 1%float.

(** The iterations of [for attempt in range(self.max_retries)] that are
    still to run; falling out of the loop returns [None]. *)
Fixpoint attempts (max_retries : Z) (api : nat → result string)
         (pending : list nat) : result (option Category) :=
  match pending with
  | [] => Returns None
  | attempt :: rest =>
      try_except
        (content ← api attempt;
         let category_text := lower (strip content) in
         category ← from_ai_response category_text 1%float;
         if is_valid category then Returns (Some category)
         else (c ← other; Returns (Some c)))
        (λ _,
           if Z.of_nat attempt <? max_retries - 1
           then attempts max_retries api rest
           else (c ← other; Returns (Some c)))
  end.

(** [OpenAICategorizationStrategy.categorize_image] *)
Definition categorize_image (max_retries : Z) (image_exists : bool) (b : Backend)
  : result (option Category) :=
  if negb image_exists then Returns None
  else if negb (image_readable b) then (c ← other; Returns (Some c))
  else attempts max_retries (completion b) (seq 0 (Z.to_nat max_retries)).

(** [OpenAICategorizationStrategy.is_available] *)
Definition is_available (b : Backend) : bool := probe b.

(** [CategorizationContext.categorize_image] *)
Definition context_categorize_image (max_retries : Z) (image_exists : bool)
           (b : Backend) : result (option Category) :=
  if negb (is_available b) then
    Raises (RuntimeError "Categorization strategy is not available")
  else categorize_image max_retries image_exists b.

End Strategy.

(* ===================================================================== *)
(** ** infrastructure/file_system_repository.py                           *)
(* ===================================================================== *)

Module Repository.
Import Py Domain.

(** [FileSystemRepository.copy_file_to_category_folder]: [fs_ok] tells
    whether creating the folder and copying go through; the method turns
    every exception into [False]. *)
Definition copy_file_to_category_folder (file : EmbroideryFile) (fs_ok : bool) : bool :=
  match category file with
  | None => false
  | Some _ => fs_ok
  end.

End Repository.

(* ===================================================================== *)
(** ** application/services.py                                            *)
(* ===================================================================== *)

Module Service.
Import Py Domain.

(** The collaborators' behaviour for the file with a given number. *)
Record FileEnv : Type := mkFileEnv {
  (** [image_converter.convert_pes_to_jpg(original_path, temp_path)] *)
  convert : result bool;
  backend : Strategy.Backend;
  (** the file system lets the copy into the category folder through *)
  copy_ok : bool
}.

Record World : Type := mkWorld {
  (** [tempfile.gettempdir() / "embroidery_categorizer"], with separator *)
  temp_dir : string;
  (** [Path(name).stem] *)
  stem : string → string;
  (** the availability check at the start of the batch *)
  available : bool;
  (** [file_repository.find_pes_files_in_directory(input_directory)] *)
  find_pes_files : result (list EmbroideryFile);
  (** by 1-based file number *)
  file_env : Z → FileEnv;
  (** [path.unlink()] goes through *)
  unlink_ok : FilePath → bool;
  max_retries : Z
}.

(** Calls that leave the service, by file number. *)
Inductive call : Type :=
| CallConvert (file_number : Z)
| CallCategorize (file_number : Z)
| CallCopy (file_number : Z) (category_name : string).

(** [self.temp_images], the preview files on disk, the calls made. *)
Record State : Type := mkState {
  temp_images : list FilePath;
  disk : gset FilePath;
  calls : list call
}.

(** The [results] dictionary; [skipped_files] is a key that may be
    absent. *)
Record Results : Type := mkResults {
  total_files : Z;
  processed_files : Z;
  failed_files : Z;
  categories_found : gset string;
  errors : list string;
  skipped_files : option Z
}.

Definition initial_results : Results := mkResults 0 0 0 ∅ [] None.

(** [_create_temp_jpg_path] (both branches build the same path). *)
Definition _create_temp_jpg_path (w : World) (pes_file_name : string) : FilePath :=
  temp_dir w +:+ stem w pes_file_name +:+ ".jpg".

(** [_process_single_file] runs on the service state and the file
    object it mutates. *)
Definition Proc : Type := (State * EmbroideryFile)%type.

Definition step_result : Type := (result bool * Proc)%type.

Definition _process_single_file (w : World) (file_number : Z) (p : Proc) : step_result :=
  let '(st, file) := p in
  let env := file_env w file_number in
  let temp_jpg_path := _create_temp_jpg_path w (file_name file) in
  let st := mkState (temp_images st ++ [temp_jpg_path]) (disk st) (calls st) in
  let st := mkState (temp_images st) (disk st) (calls st ++ [CallConvert file_number]) in
  match convert env with
  | Raises _ => (Returns false, (st, file))
  | Returns false => (Returns false, (st, file))
  | Returns true =>
      let st := mkState (temp_images st) ({[temp_jpg_path]} ∪ disk st) (calls st) in
      let file := set_jpg_path file temp_jpg_path in
      let st := mkState (temp_images st) (disk st) (calls st ++ [CallCategorize file_number]) in
      match Strategy.context_categorize_image (max_retries w)
              (bool_decide (temp_jpg_path ∈ disk st)) (backend env) with
      | Raises _ => (Returns false, (st, file))
      | Returns category =>
          let category' :=
            match category with
            | Some c => Returns c
            | None => Strategy.other
            end in
          match category' with
          | Raises _ => (Returns false, (st, file))
          | Returns c =>
              let file := assign_category file c in
              let st := mkState (temp_images st) (disk st)
                                (calls st ++ [CallCopy file_number (name c)]) in
              let copy_success :=
                Repository.copy_file_to_category_folder file (copy_ok env) in
              if negb copy_success then (Returns false, (st, file))
              else (Returns true, (st, file))
          end
      end
  end.

(** [_cleanup_temp_images] with [cleanup_temporary_images]. *)
Definition _cleanup_temp_images (w : World) (st : State) : State :=
  match temp_images st with
  | [] => st
  | paths =>
      mkState [] (disk st ∖ list_to_set (List.filter (unlink_ok w) paths)) (calls st)
  end.

(** The body of [for index, file in enumerate(embroidery_files, 1)]. *)
Definition loop_body (w : World) (start_after : option Z) (index : Z)
           (acc : Results * State) (file : EmbroideryFile) : Results * State :=
  let '(results, st) := acc in
  let skip := match start_after with Some n => index <=? n | None => false end in
  if skip then acc
  else
    match _process_single_file w index (st, file) with
    | (Returns success, (st', file')) =>
        if success then
          let found :=
            match category file' with
            | Some c => {[name c]} ∪ categories_found results
            | None => categories_found results
            end in
          (mkResults (total_files results) (processed_files results + 1)
                     (failed_files results) found (errors results)
                     (skipped_files results), st')
        else
          (mkResults (total_files results) (processed_files results)
                     (failed_files results + 1) (categories_found results)
                     (errors results) (skipped_files results), st')
    | (Raises e, (st', file')) =>
        (mkResults (total_files results) (processed_files results)
                   (failed_files results + 1) (categories_found results)
                   (errors results ++ [file_name file' +:+ ": " +:+ str_exn e])
                   (skipped_files results), st')
    end.

Fixpoint loop (w : World) (start_after : option Z) (index : Z)
         (files : list EmbroideryFile) (acc : Results * State) : Results * State :=
  match files with
  | [] => acc
  | file :: rest =>
      loop w start_after (index + 1) rest (loop_body w start_after index acc file)
  end.

(** The handler of the outer [try]: clean up, record the message. *)
Definition abort (w : World) (results : Results) (st : State) (e : exn)
  : Results * State :=
  (mkResults (total_files results) (processed_files results)
             (failed_files results) (categories_found results)
             (errors results ++ [str_exn e]) (skipped_files results),
   _cleanup_temp_images w st).

Definition with_total (results : Results) (n : Z) : Results :=
  mkResults n (processed_files results) (failed_files results)
            (categories_found results) (errors results) (skipped_files results).

Definition with_skipped (results : Results) (n : Z) : Results :=
  mkResults (total_files results) (processed_files results) (failed_files results)
            (categories_found results) (errors results) (Some n).

(** [categorize_files_in_directory] *)
Definition categorize_files_in_directory (w : World) (start_after : option Z)
           (st : State) : Results * State :=
  let results := initial_results in
  if negb (available w) then
    abort w results st (RuntimeError "Categorization service is not available")
  else
    match find_pes_files w with
    | Raises e => abort w results st e
    | Returns embroidery_files =>
        let results := with_total results (Z.of_nat (length embroidery_files)) in
        match embroidery_files with
        | [] => (results, st)
        | _ =>
            let results :=
              match start_after with
              | Some n => with_skipped results n
              | None => with_skipped results 0
              end in
            let '(results, st) := loop w start_after 1 embroidery_files (results, st) in
            (results, _cleanup_temp_images w st)
        end
    end.

End Service.

(* ===================================================================== *)
(** ** application/use_cases.py                                           *)
(* ===================================================================== *)

Module UseCase.
Import Py Domain.

Record Env : Type := mkEnv {
  input_exists : bool;
  input_is_directory : bool;
  (** [output_path.path.mkdir(parents=True, exist_ok=True)] *)
  mkdir : result unit;
  world : Service.World
}.

(** The dictionary [execute] returns: the service's results with the
    keys [success] and [error]. *)
Record Report : Type := mkReport {
  success : bool;
  error : option string;
  results : Service.Results
}.

Definition failure (error_msg : string) : Report :=
  mkReport false (Some error_msg)
           (Service.mkResults 0 0 0 ∅ [error_msg] None).

(** [CategorizeFilesUseCase.execute] *)
Definition execute (env : Env) (input_directory : string)
           (start_after : option Z) (st : Service.State) : Report * Service.State :=
  if negb (input_exists env) then
    (failure ("Input directory does not exist: " +:+ input_directory), st)
  else if negb (input_is_directory env) then
    (failure ("Input path is not a directory: " +:+ input_directory), st)
  else
    match mkdir env with
    | Raises e =>
        (failure ("Error creating output directory: " +:+ str_exn e), st)
    | Returns _ =>
        let '(results, st) :=
          Service.categorize_files_in_directory (world env) start_after st in
        (mkReport (Service.failed_files results <? Service.total_files results)
                  None results, st)
    end.

End UseCase.

(* ===================================================================== *)
(** ** Predicates used in the statements                                  *)
(* ===================================================================== *)

Module Spec.
Import Py Domain.

(** Every character of [s] satisfies [P]. *)
Fixpoint allchars (P : ascii → bool) (s : string) : bool :=
  match s with
  | EmptyString => true
  | String c r => P c && allchars P r
  end.

(** [s] does not start, respectively end, with white space. *)
Definition head_ok (s : string) : bool :=
  match s with
  | EmptyString => true
  | String c _ => negb (isspace c)
  end.

Fixpoint last_ok (s : string) : bool :=
  match s with
  | EmptyString => true
  | String c EmptyString => negb (isspace c)
  | String _ r => last_ok r
  end.

Definition not_space (c : ascii) : bool := negb (Ascii.eqb c " ").

(** The name is blank: empty, or white space only. *)
Definition blank (s : string) : bool := allchars isspace s.

(** What [__post_init__] guarantees of the stored name. *)
Record normalized (s : string) : Prop := mkNormalized {
  norm_nonempty : s ≠ EmptyString;
  norm_strip : strip s = s;
  norm_lower : lower s = s;
  norm_no_space : allchars not_space s = true
}.

(** *** Rendering *)

(** The canvas point of a stitch that carries coordinates, as the loop
    computes it. *)
Definition transformed (min_x min_y : Z) (scale : float) (s : Converter.stitch)
  : result (option Converter.point) :=
  match s with
  | x :: y :: _ =>
      adjusted_x ← Converter.adjust min_x scale x;
      adjusted_y ← Converter.adjust min_y scale y;
      Returns (Some (adjusted_x, adjusted_y))
  | _ => Returns None
  end.

(** The command a stitch carries ([STITCH] when the list has no third
    element). *)
Definition command_of (s : Converter.stitch) : option Z :=
  match s with
  | _ :: _ :: c :: _ => Some c
  | [_; _] => Some Converter.STITCH
  | _ => None
  end.

Definition is_trim_or_stop (s : Converter.stitch) : Prop :=
  command_of s = Some Converter.TRIM ∨ command_of s = Some Converter.STOP.

Definition is_draw_segment (s : Converter.stitch) : Prop :=
  command_of s = Some Converter.STITCH.

Definition is_color_change (s : Converter.stitch) : Prop :=
  command_of s = Some Converter.COLOR_CHANGE.

(** Palette entry [k mod palette-size]. *)
Definition palette_entry (k : Z) : string :=
  nth (Z.to_nat (k mod Z.of_nat (length Converter.colors))) Converter.colors EmptyString.


(** Where a line drawn while replaying [l] from anchor [anchor] starts and
    ends: at the canvas point of a command of [l], or (the start only) at
    the anchor the replay began with. *)
Definition joins (min_x min_y : Z) (scale : float) (anchor : option Converter.point)
           (l : list Converter.stitch) (ln : Converter.line) : Prop :=
  (anchor = Some (Converter.line_from ln)
   ∨ ∃ a, In a l
          ∧ transformed min_x min_y scale a = Returns (Some (Converter.line_from ln)))
  ∧ ∃ b, In b l
         ∧ transformed min_x min_y scale b = Returns (Some (Converter.line_to ln)).

(** *** Classification and the batch *)

(** The value of [Category("other")]. *)
Definition other_category : Category := mkCategory "other" 1%float.

(** An attempt fails: the request raises, or cleaning the response leaves
    no category name. *)
Definition attempt_fails (r : result string) : Prop :=
  match r with
  | Raises _ => True
  | Returns content => raised (from_ai_response (lower (strip content)) 1%float)
  end.

Definition all_attempts_fail (max_retries : Z) (b : Strategy.Backend) : Prop :=
  ∀ k : nat, Z.of_nat k < max_retries → attempt_fails (Strategy.completion b k).

(** The file number a call was made for. *)
Definition call_number (c : Service.call) : Z :=
  match c with
  | Service.CallConvert n | Service.CallCategorize n | Service.CallCopy n _ => n
  end.

(** The file with number [index] is skipped by the resume index. *)
Definition skipped (start_after : option Z) (index : Z) : bool :=
  match start_after with Some n => index <=? n | None => false end.

(** The preview paths of the files of a batch that are not skipped, in
    scan order; [index] is the number of the first file. *)
Fixpoint preview_paths (w : Service.World) (start_after : option Z) (index : Z)
         (files : list EmbroideryFile) : list FilePath :=
  match files with
  | [] => []
  | file :: rest =>
      (if skipped start_after index then []
       else [Service._create_temp_jpg_path w (file_name file)])
      ++ preview_paths w start_after (index + 1) rest
  end.

(** What the loop over [files], numbered from [index], keeps and what it
    adds between the state [before] and the state [after]. *)
Record loop_effects (w : Service.World) (start_after : option Z) (index : Z)
       (files : list EmbroideryFile)
       (before after : Service.Results * Service.State) : Prop :=
  mkLoopEffects {
    le_errors : Service.errors (fst after) = Service.errors (fst before);
    le_total : Service.total_files (fst after) = Service.total_files (fst before);
    le_skipped :
      Service.skipped_files (fst after) = Service.skipped_files (fst before);
    le_count :
      Service.processed_files (fst after) + Service.failed_files (fst after)
      = Service.processed_files (fst before) + Service.failed_files (fst before)
        + Z.of_nat (length (preview_paths w start_after index files));
    le_failed :
      Service.failed_files (fst before) <= Service.failed_files (fst after);
    le_processed :
      Service.processed_files (fst before) <= Service.processed_files (fst after);
    le_temp :
      Service.temp_images (snd after)
      = Service.temp_images (snd before) ++ preview_paths w start_after index files;
    le_disk : Service.disk (snd before) ⊆ Service.disk (snd after);
    le_calls :
      ∃ new, Service.calls (snd after) = Service.calls (snd before) ++ new
             ∧ Forall (λ c, index <= call_number c
                            ∧ skipped start_after (call_number c) = false) new
  }.

End Spec.

(* ===================================================================== *)
(** ** Concrete batches                                                   *)
(* ===================================================================== *)

Module Scenarios.
Import Py Domain Service.

(** A backend that is reachable and answers every request with [answer]. *)
Definition answering (answer : string) : Strategy.Backend :=
  Strategy.mkBackend true true (λ _, Returns answer).

(** A backend that is down: the probe fails and so does every request. *)
Definition unreachable : Strategy.Backend :=
  Strategy.mkBackend false true (λ _, Raises (OtherError "connection refused")).

(** A design as [find_pes_files_in_directory] creates it. *)
Definition design (stem : string) : EmbroideryFile :=
  mkFile ("designs/" +:+ stem +:+ ".pes") stem None None.

(** A world in which the service is available at the start, the scan
    finds [files], every preview can be unlinked, and the strategy has its
    default three attempts. *)
Definition world_of (files : list EmbroideryFile) (envs : Z → FileEnv) : World :=
  mkWorld "/tmp/embroidery_categorizer/" (λ n, n) true (Returns files) envs
          (λ _, true) 3.

Definition fresh : State := mkState [] ∅ [].

Definition env_of (w : World) : UseCase.Env :=
  UseCase.mkEnv true true (Returns tt) w.

(** A file for which everything goes through, classified as [answer]. *)
Definition fine (answer : string) : FileEnv :=
  mkFileEnv (Returns true) (answering answer) true.

(** A directory without designs. *)
Definition empty_world : World := world_of [] (λ _, fine "flowers").

(** Three designs: the first has no stitches, the second goes through as
    "flowers", the copy of the third fails. *)
Definition three_designs : World :=
  world_of [design "empty"; design "rose"; design "locked"]
           (λ n, if n =? 1 then mkFileEnv (Returns false) (answering "flowers") true
                 else if n =? 2 then fine "flowers"
                 else mkFileEnv (Returns true) (answering "hearts") false).

(** One design that renders and could be copied, while the backend is
    down when it is to be classified. *)
Definition backend_down : World :=
  world_of [design "rose"] (λ _, mkFileEnv (Returns true) unreachable true).

(** Two designs for which everything goes through. *)
Definition two_designs : World :=
  world_of [design "rose"; design "tulip"] (λ _, fine "flowers").

(** An imaging library that refuses a negative size when the image is
    created and a side of more than 65500 pixels when it is saved as
    JPEG, on a file system that lets every write through. *)
Definition pillow : Converter.Pil :=
  Converter.mkPil
    (λ width height _,
       if (width <? 0) || (height <? 0)
       then Raises (ValueError "Width and height must be >= 0")
       else Returns tt)
    (Returns tt)
    (λ img,
       if (65500 <? Converter.img_width img) || (65500 <? Converter.img_height img)
       then Raises (OtherError "Maximum supported image dimension is 65500 pixels")
       else Returns tt).


End Scenarios.

(* ===================================================================== *)
(** ** domain/language_mappings.py and the category lists                 *)
(* ===================================================================== *)

Module LanguageMapper.
Import Py Domain.

(** The two inner dictionaries of [CATEGORY_MAPPINGS], as written. *)
Definition en_items : list (string * string) :=
  [("teddy_bears", "teddy_bears"); ("angels", "angels"); ("names", "names");
   ("cars", "cars"); ("flowers", "flowers"); ("animals", "animals");
   ("hearts", "hearts"); ("stars", "stars"); ("butterflies", "butterflies");
   ("babies", "babies"); ("christmas", "christmas"); ("easter", "easter");
   ("sports", "sports"); ("food", "food"); ("nature", "nature");
   ("other", "other")]%string.

Definition pt_BR_items : list (string * string) :=
  [("teddy_bears", "ursinhos"); ("angels", "anjos"); ("names", "nomes");
   ("cars", "carrinhos"); ("flowers", "flores"); ("animals", "animais");
   ("hearts", "coracoes"); ("stars", "estrelas"); ("butterflies", "borboletas");
   ("babies", "bebes"); ("christmas", "natal"); ("easter", "pascoa");
   ("sports", "esportes"); ("food", "comida"); ("nature", "natureza");
   ("other", "outros")]%string.

(** The outer dictionary literal, in the order it is written. *)
Definition CATEGORY_MAPPINGS_items : list (string * list (string * string)) :=
  [("en"%string, en_items); ("pt-BR"%string, pt_BR_items)].

(** [CATEGORY_MAPPINGS] as a dictionary of dictionaries. *)
Definition CATEGORY_MAPPINGS : gmap string (gmap string string) :=
  list_to_map (map (λ kv, (fst kv, list_to_map (snd kv))) CATEGORY_MAPPINGS_items).

(** [language in cls.CATEGORY_MAPPINGS] *)
Definition is_language_supported (language : string) : bool :=
  bool_decide (is_Some (CATEGORY_MAPPINGS !! language)).

(** [list(cls.CATEGORY_MAPPINGS.keys())]: the keys in insertion order. *)
Definition get_supported_languages : list string :=
  map fst CATEGORY_MAPPINGS_items.

(** [LanguageMapper.get_folder_name]; the subscript raises [KeyError] on a
    missing key. *)
Definition get_folder_name (english_category language : string) : result string :=
  let language := if negb (is_language_supported language) then "en"%string else language in
  match CATEGORY_MAPPINGS !! language with
  | None => Raises (OtherError ("KeyError: " +:+ language))
  | Some mapping =>
      Returns (match mapping !! english_category with
               | Some folder => folder
               | None => english_category
               end)
  end.

(** [Category.get_folder_name] *)
Definition category_folder_name (c : Category) (language : string) : result string :=
  get_folder_name (name c) language.

End LanguageMapper.

Module StrategyTrace.
Import Py Domain Strategy.

(** [OpenAICategorizationStrategy.get_supported_categories] *)
Definition get_supported_categories : list string :=
  ["teddy_bears"; "angels"; "names"; "cars"; "flowers";
   "animals"; "hearts"; "stars"; "butterflies"; "babies";
   "christmas"; "easter"; "sports"; "food"; "nature"; "other"]%string.

(** What the retry loop does to the outside: a request to the vision
    model, or [time.sleep(seconds)]. *)
Inductive effect : Type :=
| Request (attempt : nat)
| Sleep (seconds : Z).

(** The loop of [categorize_image] once more, now with the requests it
    issues and the waits between them:
    [wait_time = (attempt + 1) * 2] before every attempt but the last. *)
Fixpoint attempts_traced (max_retries : Z) (api : nat → result string)
         (pending : list nat) : result (option Category) * list effect :=
  match pending with
  | [] => (Returns None, [])
  | attempt :: rest =>
      match (content ← api attempt;
             let category_text := lower (strip content) in
             category ← from_ai_response category_text 1%float;
             if is_valid category then Returns (Some category)
             else (c ← other; Returns (Some c))) with
      | Returns r => (Returns r, [Request attempt])
      | Raises _ =>
          if Z.of_nat attempt <? max_retries - 1 then
            let wait_time := (Z.of_nat attempt + 1) * 2 in
            let '(r, log) := attempts_traced max_retries api rest in
            (r, Request attempt :: Sleep wait_time :: log)
          else ((c ← other; Returns (Some c)), [Request attempt])
      end
  end.

(** The numbers of the requests and the lengths of the waits of a log. *)
Definition requests (log : list effect) : list nat :=
  omap (λ e, match e with Request k => Some k | Sleep _ => None end) log.

Definition waits (log : list effect) : list Z :=
  omap (λ e, match e with Sleep s => Some s | Request _ => None end) log.

Definition total_wait (log : list effect) : Z :=
  fold_right Z.add 0 (waits log).

End StrategyTrace.

(* ===================================================================== *)
(** ** Further predicates                                                 *)
(* ===================================================================== *)

Module Props.
Import Py Domain Spec.

(** [wait_time] before the attempt after [attempt]. *)
Definition wait_before_retry (attempt : nat) : Z := (Z.of_nat attempt + 1) * 2.

(** The lines that join each point of a list to the next. *)
Fixpoint polyline (color : string) (points : list Converter.point)
  : list Converter.line :=
  match points with
  | p :: (q :: _) as rest => Converter.mkLine p q color 2 :: polyline color rest
  | _ => []
  end.

(** The canvas points of the stitches that carry coordinates, converted
    in the order of the loop. *)
Fixpoint canvas_points (min_x min_y : Z) (scale : float)
         (l : list Converter.stitch) : result (list Converter.point) :=
  match l with
  | [] => Returns []
  | s :: rest =>
      p ← transformed min_x min_y scale s;
      points ← canvas_points min_x min_y scale rest;
      Returns (option_list p ++ points)
  end.

(** The stitch is well-formed and carries the plain stitch command. *)
Definition plain_stitch (s : Converter.stitch) : bool :=
  match s with
  | [_; _] => true
  | _ :: _ :: c :: _ => c =? Converter.STITCH
  | _ => false
  end.




(** The calls of one file come in the order convert, categorize, copy. *)
Definition ordered_calls (n : Z) (new : list Service.call) : Prop :=
  new = [Service.CallConvert n]
  ∨ new = [Service.CallConvert n; Service.CallCategorize n]
  ∨ ∃ c, new = [Service.CallConvert n; Service.CallCategorize n;
                 Service.CallCopy n c].

End Props.

(* ===================================================================== *)
(** ** [Category] on text of any code points                              *)
(* ===================================================================== *)

Module Unicode.
Import Py.

(** A [str] as the sequence of its code points. *)
Definition str : Type := list N.

(** The code points of a literal. *)
Definition codes (s : string) : str := map N_of_ascii (list_ascii_of_string s).

(** The space and the underscore of [replace(' ', '_')]. *)
Definition SPACE : N := 32.
Definition LOW_LINE : N := 95.

(** The thirteen code points of the punctuation literal of
    [from_ai_response], in its order: full stop, comma, exclamation mark,
    question mark, semicolon, colon, quotation mark, and the three pairs
    of brackets. *)
Definition punctuation : str :=
  [46; 44; 33; 63; 59; 58; 34; 40; 41; 91; 93; 123; 125]%N.

(** [s.replace(old, new)] for a one-character [old]. *)
Fixpoint replace (old : N) (new : str) (s : str) : str :=
  match s with
  | [] => []
  | c :: r =>
      if (c =? old)%N then new ++ replace old new r
      else c :: replace old new r
  end.

(** Truth value of a [str]: non-empty. *)
Definition truthy (s : str) : bool :=
  match s with [] => false | _ => true end.

Record Category : Type := mkCategory {
  name : str;
  confidence : float
}.

Section Tables.

(** The two tables of the Unicode database that [Category] consults
    through [str.strip] and [str.lower]: which code points are white
    space, and the lower-casing of a string (a code point may become
    several, and what it becomes may depend on its neighbours). *)
Variable isspace : N → bool.
Variable lower : str → str.

Fixpoint lstrip (s : str) : str :=
  match s with
  | [] => []
  | c :: r => if isspace c then lstrip r else s
  end.

Fixpoint rstrip (s : str) : str :=
  match s with
  | [] => []
  | c :: r =>
      match rstrip r with
      | [] => if isspace c then [] else [c]
      | r' => c :: r'
      end
  end.

(** [s.strip()] *)
Definition strip (s : str) : str := rstrip (lstrip s).

(** [Category(name, confidence)]: the dataclass constructor followed by
    [__post_init__]. *)
Definition Category_new (name : str) (confidence : float) : result Category :=
  if negb (truthy name) || negb (truthy (strip name)) then
    Raises (ValueError "Category name cannot be empty")
  else if negb (Domain.confidence_in_range confidence) then
    Raises (ValueError "Confidence must be between 0.0 and 1.0")
  else
    let normalized_name := replace SPACE [LOW_LINE] (lower (strip name)) in
    Returns (mkCategory normalized_name confidence).

(** [Category.from_ai_response(ai_response, confidence)] *)
Definition from_ai_response (ai_response : str) (confidence : float)
  : result Category :=
  let clean_name := lower (strip ai_response) in
  let clean_name :=
    fold_left (fun acc char => replace char [] acc) punctuation clean_name in
  Category_new clean_name confidence.

(** [Category.is_valid] *)
Definition is_valid (c : Category) : bool :=
  truthy (name c) && truthy (strip (name c)).

(** [s] does not start, respectively end, with white space. *)
Definition head_ok (s : str) : bool :=
  match s with
  | [] => true
  | c :: _ => negb (isspace c)
  end.

Fixpoint last_ok (s : str) : bool :=
  match s with
  | [] => true
  | [c] => negb (isspace c)
  | _ :: r => last_ok r
  end.

(** The name is blank: empty, or white space only. *)
Definition blank (s : str) : bool := forallb isspace s.

(** What [__post_init__] guarantees of the stored name. *)
Record normalized (s : str) : Prop := mkNormalized {
  norm_nonempty : s ≠ [];
  norm_strip : strip s = s;
  norm_lower : lower s = s;
  norm_no_space : ¬ In SPACE s
}.

(** What is used of the two tables.  The underscore is not white space.
    Lower-casing deletes no code point and yields
    nothing it would change again; white space is uncased, is not looked
    through when the context of a letter is examined, and is never the
    result of a mapping, so that trimming and lower-casing commute; the
    space and the underscore are uncased and stop the examination of a
    context alike, so that replacing the one by the other commutes with
    lower-casing; and no mapping yields one of the thirteen punctuation
    characters. *)
Record tables_ok : Prop := mkTablesOk {
  low_line_not_space : isspace LOW_LINE = false;
  lower_empty : ∀ s, lower s = [] → s = [];
  lower_idempotent : ∀ s, lower (lower s) = lower s;
  lower_strip : ∀ s, lower (strip s) = strip (lower s);
  lower_low_line :
    ∀ s, lower (replace SPACE [LOW_LINE] s) = replace SPACE [LOW_LINE] (lower s);
  lower_punctuation :
    ∀ s ch, In ch punctuation → ¬ In ch s → ¬ In ch (lower s)
}.

End Tables.

(** *** An instance of the tables *)

(** The white space of the Unicode database. *)
Definition isspace_table (n : N) : bool :=
  ((9 <=? n) && (n <=? 13) || (28 <=? n) && (n <=? 32)
   || (n =? 133) || (n =? 160) || (n =? 5760)
   || (8192 <=? n) && (n <=? 8202)
   || (n =? 8232) || (n =? 8233) || (n =? 8239) || (n =? 8287)
   || (n =? 12288))%N.

(** Lower-casing of the capitals below 256 (A..Z and 0xC0..0xDE other
    than the multiplication sign 0xD7), code point by code point; every
    other code point is left as it is. *)
Definition lower_code (n : N) : N :=
  if ((65 <=? n) && (n <=? 90)
      || (192 <=? n) && (n <=? 222) && negb (n =? 215))%N
  then (n + 32)%N else n.

Definition lower_latin1 (s : str) : str := map lower_code s.


End Unicode.

(* ===================================================================== *)
(** ** Rounding to nearest, on values                                     *)
(* ===================================================================== *)

Module Rounding.

(** The facts about binary64 arithmetic compare floats through their
    values.  The value of a finite float [m * 2 ^ e] is kept as the integer
    [m * 2 ^ (e + K)], for a [K] that makes every exponent in play
    non-negative: 1074 for a double, 2148 for the exact product of two. *)

(** Round to nearest, ties to even, of [a / d]. *)
Definition rne (a d : Z) : Z :=
  let q := a / d in
  let r := a mod d in
  if 2 * r <? d then q
  else if d <? 2 * r then q + 1
  else if Z.even q then q else q + 1.






(** A float without a negative sign; a NaN counts. *)
Definition nonneg_sf (f : spec_float) : Prop :=
  match f with
  | S754_zero false | S754_infinity false | S754_finite false _ _ | S754_nan => True
  | _ => False
  end.

(** A zero or a finite float without a negative sign. *)
Definition finite_sf (f : spec_float) : Prop :=
  match f with
  | S754_zero false | S754_finite false _ _ => True
  | _ => False
  end.

End Rounding.

(* ===================================================================== *)
(** ** Facts about the [str] methods                                      *)
(* ===================================================================== *)

Module PyFacts.
Import Py Spec.

Ltac each_char c :=
  destruct c as [[] [] [] [] [] [] [] []]; vm_compute; try reflexivity; try congruence.

Lemma isspace_lower_char c : isspace (lower_char c) = isspace c.
Proof. each_char c. Qed.

Lemma lower_char_idem c : lower_char (lower_char c) = lower_char c.
Proof. each_char c. Qed.

Lemma truthy_true s : truthy s = true ↔ s ≠ EmptyString.
Proof. destruct s; simpl; split; congruence. Qed.

Lemma append_cons c r t : String c r +:+ t = String c (r +:+ t).
Proof. reflexivity. Qed.

(** *** [strip] *)

Lemma lstrip_head_ok s : head_ok (lstrip s) = true.
Proof.
  induction s as [|c r IH]; simpl; [reflexivity|].
  destruct (isspace c) eqn:E; [exact IH|]. simpl. now rewrite E.
Qed.

Lemma rstrip_head_ok s : head_ok s = true → head_ok (rstrip s) = true.
Proof.
  destruct s as [|c r]; simpl; [reflexivity|]. intros H.
  destruct (rstrip r); simpl.
  - destruct (isspace c) eqn:E; [discriminate|]. simpl. now rewrite E.
  - exact H.
Qed.

Lemma rstrip_last_ok s : last_ok (rstrip s) = true.
Proof.
  induction s as [|c r IH]; simpl; [reflexivity|].
  destruct (rstrip r) as [|d r'] eqn:E.
  - destruct (isspace c) eqn:Ec; simpl; [reflexivity|]. now rewrite Ec.
  - simpl. simpl in IH. exact IH.
Qed.

Lemma lstrip_fixed s : head_ok s = true → lstrip s = s.
Proof.
  destruct s as [|c r]; simpl; [reflexivity|].
  destruct (isspace c); [discriminate|reflexivity].
Qed.

Lemma rstrip_fixed s : last_ok s = true → rstrip s = s.
Proof.
  induction s as [|c r IH]; [reflexivity|].
  destruct r as [|d r'].
  - simpl. intros H. destruct (isspace c); [discriminate|reflexivity].
  - intros H. change (last_ok (String d r') = true) in H.
    specialize (IH H). simpl in IH |- *. now rewrite IH.
Qed.

Lemma strip_head_ok s : head_ok (strip s) = true.
Proof. apply rstrip_head_ok, lstrip_head_ok. Qed.

Lemma strip_last_ok s : last_ok (strip s) = true.
Proof. apply rstrip_last_ok. Qed.

Lemma strip_fixed s : head_ok s = true → last_ok s = true → strip s = s.
Proof.
  intros Hh Hl. unfold strip. rewrite (lstrip_fixed s Hh). now apply rstrip_fixed.
Qed.

(** *** [lower] *)

Lemma lower_nonempty s : s ≠ EmptyString → lower s ≠ EmptyString.
Proof. destruct s; simpl; congruence. Qed.

Lemma head_ok_lower s : head_ok (lower s) = head_ok s.
Proof. destruct s; simpl; [reflexivity|]. now rewrite isspace_lower_char. Qed.

Lemma last_ok_lower s : last_ok (lower s) = last_ok s.
Proof.
  induction s as [|c r IH]; [reflexivity|].
  destruct r as [|d r'].
  - simpl. now rewrite isspace_lower_char.
  - exact IH.
Qed.

(** *** [replace] *)

Lemma allchars_app P s t :
  allchars P (s +:+ t) = allchars P s && allchars P t.
Proof.
  induction s as [|c r IH]; [reflexivity|].
  rewrite append_cons. simpl. now rewrite IH, andb_assoc.
Qed.

(** After [replace old new], no [old] is left when [new] has none. *)
Lemma replace_removes old new s :
  allchars (λ c, negb (Ascii.eqb c old)) new = true →
  allchars (λ c, negb (Ascii.eqb c old)) (replace old new s) = true.
Proof.
  intros Hn. induction s as [|c r IH]; simpl; [reflexivity|].
  destruct (Ascii.eqb c old) eqn:E.
  - now rewrite allchars_app, Hn.
  - simpl. now rewrite E.
Qed.

Lemma replace_space_cons c r :
  replace " " "_" (String c r) =
  String (if Ascii.eqb c " " then "_"%char else c) (replace " " "_" r).
Proof. simpl. destruct (Ascii.eqb c " "); reflexivity. Qed.

Lemma replace_space_nonempty s :
  s ≠ EmptyString → replace " " "_" s ≠ EmptyString.
Proof. destruct s as [|c r]; [congruence|]. rewrite replace_space_cons. congruence. Qed.

Lemma underscore_or_same c :
  isspace c = false → isspace (if Ascii.eqb c " " then "_"%char else c) = false.
Proof. destruct (Ascii.eqb c " "); [reflexivity|trivial]. Qed.

Lemma head_ok_replace_space s :
  head_ok s = true → head_ok (replace " " "_" s) = true.
Proof.
  destruct s as [|c r]; [reflexivity|]. rewrite replace_space_cons. simpl.
  intros H%negb_true_iff. now rewrite underscore_or_same.
Qed.

Lemma last_ok_replace_space s :
  last_ok s = true → last_ok (replace " " "_" s) = true.
Proof.
  induction s as [|c r IH]; [reflexivity|].
  rewrite replace_space_cons. destruct r as [|d r'].
  - simpl. intros H%negb_true_iff. now rewrite underscore_or_same.
  - intros H. change (last_ok (String d r') = true) in H. specialize (IH H).
    rewrite replace_space_cons in IH |- *. exact IH.
Qed.

Lemma lower_replace_space_lower s :
  lower (replace " " "_" (lower s)) = replace " " "_" (lower s).
Proof.
  induction s as [|c r IH]; [reflexivity|].
  change (lower (String c r)) with (String (lower_char c) (lower r)).
  rewrite replace_space_cons. simpl. rewrite IH. f_equal.
  destruct (Ascii.eqb (lower_char c) " "); [reflexivity|apply lower_char_idem].
Qed.

End PyFacts.

(* ===================================================================== *)
(** ** The Category value object                                          *)
(* ===================================================================== *)

Module CategoryFacts.
Import Py Domain Spec PyFacts.

Lemma blank_lstrip s : blank s = true → lstrip s = EmptyString.
Proof.
  unfold blank. induction s as [|c r IH]; simpl; [reflexivity|].
  intros [Hc Hr]%andb_prop. rewrite Hc. now apply IH.
Qed.

Lemma lstrip_blank s : lstrip s = EmptyString → blank s = true.
Proof.
  unfold blank. induction s as [|c r IH]; simpl; [reflexivity|].
  destruct (isspace c); [exact IH|discriminate].
Qed.

Lemma strip_empty_blank s : strip s = EmptyString ↔ blank s = true.
Proof.
  unfold strip. split.
  - intros H. apply lstrip_blank. pose proof (lstrip_head_ok s) as Hh.
    destruct (lstrip s) as [|c r]; [reflexivity|]. simpl in H, Hh.
    destruct (rstrip r); [|discriminate].
    destruct (isspace c); discriminate.
  - intros H. now rewrite (blank_lstrip s H).
Qed.

Lemma normalize_normalized t :
  t ≠ EmptyString → head_ok t = true → last_ok t = true →
  normalized (replace " " "_" (lower t)).
Proof.
  intros Hne Hh Hl. split.
  - now apply replace_space_nonempty, lower_nonempty.
  - apply strip_fixed.
    + apply head_ok_replace_space. now rewrite head_ok_lower.
    + apply last_ok_replace_space. now rewrite last_ok_lower.
  - apply lower_replace_space_lower.
  - apply (replace_removes " " "_"). reflexivity.
Qed.

(** The three ways [Category(name, confidence)] ends. *)
Lemma Category_new_cases n c :
  (blank n = true ∧
   Category_new n c = Raises (ValueError "Category name cannot be empty"))
  ∨ (blank n = false ∧ confidence_in_range c = false ∧
     Category_new n c = Raises (ValueError "Confidence must be between 0.0 and 1.0"))
  ∨ (blank n = false ∧ confidence_in_range c = true ∧
     Category_new n c = Returns (mkCategory (replace " " "_" (lower (strip n))) c)).
Proof.
  unfold Category_new. destruct (blank n) eqn:Hb.
  - left. split; [reflexivity|].
    apply strip_empty_blank in Hb. rewrite Hb. simpl. now rewrite orb_true_r.
  - right. assert (Hs : strip n ≠ EmptyString).
    { intros E. apply strip_empty_blank in E. congruence. }
    assert (Hn : n ≠ EmptyString) by (intros ->; discriminate).
    apply truthy_true in Hs, Hn. rewrite Hs, Hn. simpl.
    destruct (confidence_in_range c); simpl; [right|left]; auto.
Qed.

Lemma Category_new_returns n c cat :
  Category_new n c = Returns cat →
  blank n = false ∧ confidence_in_range c = true ∧
  cat = mkCategory (replace " " "_" (lower (strip n))) c.
Proof.
  intros H.
  destruct (Category_new_cases n c) as [[_ E]|[(_ & _ & E)|(Hb & Hc & E)]];
    rewrite E in H; try discriminate.
  injection H as <-. auto.
Qed.

Lemma Category_new_normalized n c cat :
  Category_new n c = Returns cat → normalized (name cat).
Proof.
  intros (Hb & _ & ->)%Category_new_returns. simpl.
  apply normalize_normalized.
  - intros E. apply strip_empty_blank in E. congruence.
  - apply strip_head_ok.
  - apply strip_last_ok.
Qed.

End CategoryFacts.

(* ===================================================================== *)
(** ** Category normalization (claims C9, C10)                            *)
(* ===================================================================== *)

Module UnicodeFacts.
Import Py Unicode.

Lemma text_truthy (s : str) : truthy s = true ↔ s ≠ [].
Proof. destruct s; simpl; split; congruence. Qed.

(** *** [replace] *)

Lemma text_replace_in old new s ch :
  In ch (replace old new s) → In ch new ∨ In ch s.
Proof.
  induction s as [|c r IH]; simpl; [tauto|].
  destruct (c =? old)%N.
  - intros [H|H]%in_app_or; [now left|]. destruct (IH H); auto.
  - intros [->|H]; [auto|]. destruct (IH H); auto.
Qed.

(** After [replace old new], no [old] is left when [new] has none. *)
Lemma text_replace_removes old new s :
  ¬ In old new → ¬ In old (replace old new s).
Proof.
  intros Hn. induction s as [|c r IH]; simpl; [tauto|].
  destruct (N.eqb_spec c old) as [->|Hne].
  - intros [H|H]%in_app_or; tauto.
  - intros [H|H]; [congruence|tauto].
Qed.

Lemma text_replace_fixed old new s : ¬ In old s → replace old new s = s.
Proof.
  induction s as [|c r IH]; simpl; [reflexivity|]. intros H.
  destruct (N.eqb_spec c old) as [->|Hne]; [tauto|].
  rewrite IH; [reflexivity|tauto].
Qed.

Lemma text_replace_cons c r :
  replace SPACE [LOW_LINE] (c :: r)
  = (if (c =? SPACE)%N then LOW_LINE else c) :: replace SPACE [LOW_LINE] r.
Proof. simpl. destruct (c =? SPACE)%N; reflexivity. Qed.

Lemma text_replace_nonempty s : s ≠ [] → replace SPACE [LOW_LINE] s ≠ [].
Proof. destruct s as [|c r]; [congruence|]. rewrite text_replace_cons. discriminate. Qed.

(** *** Removal of the punctuation *)

Lemma text_remove_fold_fixed (l : str) s :
  (∀ ch, In ch l → ¬ In ch s) →
  fold_left (fun acc char => replace char [] acc) l s = s.
Proof.
  induction l as [|ch l IH]; simpl; [reflexivity|]. intros H.
  rewrite (text_replace_fixed ch [] s) by (apply H; now left).
  apply IH. intros ch' Hin. apply H. now right.
Qed.

Lemma text_remove_fold_in (l : str) s ch :
  In ch (fold_left (fun acc char => replace char [] acc) l s) → In ch s.
Proof.
  revert s. induction l as [|ch' l IH]; simpl; intros s H; [exact H|].
  apply IH in H. apply text_replace_in in H as [[]|H]. exact H.
Qed.

Lemma text_remove_fold_removes (l : str) s ch :
  In ch l → ¬ In ch (fold_left (fun acc char => replace char [] acc) l s).
Proof.
  revert s. induction l as [|ch' l IH]; simpl; intros s; [tauto|].
  intros [->|Hin]; [|now apply IH].
  intros H%text_remove_fold_in. revert H. apply text_replace_removes. tauto.
Qed.

(** *** [strip] *)

Section Strip.
Variable isspace : N → bool.

Lemma text_lstrip_head_ok s : head_ok isspace (lstrip isspace s) = true.
Proof.
  induction s as [|c r IH]; simpl; [reflexivity|].
  destruct (isspace c) eqn:E; [exact IH|]. simpl. now rewrite E.
Qed.

Lemma text_rstrip_head_ok s :
  head_ok isspace s = true → head_ok isspace (rstrip isspace s) = true.
Proof.
  destruct s as [|c r]; simpl; [reflexivity|]. intros H.
  destruct (rstrip isspace r); simpl.
  - destruct (isspace c) eqn:E; [discriminate|]. simpl. now rewrite E.
  - exact H.
Qed.

Lemma text_rstrip_last_ok s : last_ok isspace (rstrip isspace s) = true.
Proof.
  induction s as [|c r IH]; simpl; [reflexivity|].
  destruct (rstrip isspace r) as [|d r'] eqn:E.
  - destruct (isspace c) eqn:Ec; simpl; [reflexivity|]. now rewrite Ec.
  - simpl. simpl in IH. exact IH.
Qed.

Lemma text_lstrip_fixed s : head_ok isspace s = true → lstrip isspace s = s.
Proof.
  destruct s as [|c r]; simpl; [reflexivity|].
  destruct (isspace c); [discriminate|reflexivity].
Qed.

Lemma text_rstrip_fixed s : last_ok isspace s = true → rstrip isspace s = s.
Proof.
  induction s as [|c r IH]; [reflexivity|].
  destruct r as [|d r'].
  - simpl. intros H. destruct (isspace c); [discriminate|reflexivity].
  - intros H. change (last_ok isspace (d :: r') = true) in H.
    specialize (IH H). simpl in IH |- *. now rewrite IH.
Qed.

Lemma text_strip_head_ok s : head_ok isspace (strip isspace s) = true.
Proof. apply text_rstrip_head_ok, text_lstrip_head_ok. Qed.

Lemma text_strip_last_ok s : last_ok isspace (strip isspace s) = true.
Proof. apply text_rstrip_last_ok. Qed.

Lemma text_strip_fixed s :
  head_ok isspace s = true → last_ok isspace s = true → strip isspace s = s.
Proof.
  intros Hh Hl. unfold strip. rewrite (text_lstrip_fixed s Hh).
  now apply text_rstrip_fixed.
Qed.

Lemma text_lstrip_in s ch : In ch (lstrip isspace s) → In ch s.
Proof.
  induction s as [|c r IH]; simpl; [tauto|].
  destruct (isspace c); [auto|]. simpl. tauto.
Qed.

Lemma text_rstrip_in s ch : In ch (rstrip isspace s) → In ch s.
Proof.
  induction s as [|c r IH]; simpl; [tauto|].
  destruct (rstrip isspace r) as [|d r'].
  - destruct (isspace c); simpl; tauto.
  - intros [->|H]; [now left|]. right. apply IH. exact H.
Qed.

Lemma text_strip_in s ch : In ch (strip isspace s) → In ch s.
Proof. intros H. now apply text_lstrip_in, text_rstrip_in. Qed.

Lemma text_blank_lstrip s : blank isspace s = true → lstrip isspace s = [].
Proof.
  unfold blank. induction s as [|c r IH]; simpl; [reflexivity|].
  intros [Hc Hr]%andb_prop. rewrite Hc. now apply IH.
Qed.

Lemma text_lstrip_blank s : lstrip isspace s = [] → blank isspace s = true.
Proof.
  unfold blank. induction s as [|c r IH]; simpl; [reflexivity|].
  destruct (isspace c); [exact IH|discriminate].
Qed.

Lemma text_strip_empty_blank s : strip isspace s = [] ↔ blank isspace s = true.
Proof.
  unfold strip. split.
  - intros H. apply text_lstrip_blank. pose proof (text_lstrip_head_ok s) as Hh.
    destruct (lstrip isspace s) as [|c r]; [reflexivity|]. simpl in H, Hh.
    destruct (rstrip isspace r); [|discriminate].
    destruct (isspace c); discriminate.
  - intros H. now rewrite (text_blank_lstrip s H).
Qed.

(** Trimming commutes with a mapping of the code points that keeps white
    space and nothing else white space. *)
Lemma text_lstrip_map (f : N → N) s :
  (∀ c, isspace (f c) = isspace c) →
  lstrip isspace (map f s) = map f (lstrip isspace s).
Proof.
  intros Hf. induction s as [|c r IH]; [reflexivity|]. simpl.
  rewrite Hf. destruct (isspace c); [exact IH|reflexivity].
Qed.

Lemma text_rstrip_map (f : N → N) s :
  (∀ c, isspace (f c) = isspace c) →
  rstrip isspace (map f s) = map f (rstrip isspace s).
Proof.
  intros Hf. induction s as [|c r IH]; [reflexivity|]. simpl. rewrite IH.
  destruct (rstrip isspace r) as [|d r']; simpl.
  - rewrite Hf. destruct (isspace c); reflexivity.
  - reflexivity.
Qed.

End Strip.

(** *** The constructor *)

Section Laws.
Variable isspace : N → bool.
Variable lower : str → str.
Hypothesis tables : tables_ok isspace lower.

Lemma text_underscore_or_same c :
  isspace c = false → isspace (if (c =? SPACE)%N then LOW_LINE else c) = false.
Proof.
  destruct (c =? SPACE)%N; [intros _; apply (low_line_not_space _ _ tables)|trivial].
Qed.

Lemma text_head_ok_replace s :
  head_ok isspace s = true → head_ok isspace (replace SPACE [LOW_LINE] s) = true.
Proof.
  destruct s as [|c r]; [reflexivity|]. rewrite text_replace_cons. simpl.
  intros H%negb_true_iff. now rewrite text_underscore_or_same.
Qed.

Lemma text_last_ok_replace s :
  last_ok isspace s = true → last_ok isspace (replace SPACE [LOW_LINE] s) = true.
Proof.
  induction s as [|c r IH]; [reflexivity|].
  rewrite text_replace_cons. destruct r as [|d r'].
  - simpl. intros H%negb_true_iff. now rewrite text_underscore_or_same.
  - intros H. change (last_ok isspace (d :: r') = true) in H. specialize (IH H).
    rewrite text_replace_cons in IH |- *. exact IH.
Qed.

Lemma text_normalize_normalized n :
  strip isspace n ≠ [] →
  normalized isspace lower (replace SPACE [LOW_LINE] (lower (strip isspace n))).
Proof.
  intros Hne. split.
  - apply text_replace_nonempty. intros E.
    apply (lower_empty _ _ tables) in E. contradiction.
  - rewrite (lower_strip _ _ tables). apply text_strip_fixed.
    + apply text_head_ok_replace, text_strip_head_ok.
    + apply text_last_ok_replace, text_strip_last_ok.
  - rewrite (lower_low_line _ _ tables). now rewrite (lower_idempotent _ _ tables).
  - apply text_replace_removes. intros [E|[]]. discriminate E.
Qed.

(** The three ways [Category(name, confidence)] ends. *)
Lemma text_Category_new_cases n c :
  (blank isspace n = true ∧
   Category_new isspace lower n c
   = Raises (ValueError "Category name cannot be empty"))
  ∨ (blank isspace n = false ∧ Domain.confidence_in_range c = false ∧
     Category_new isspace lower n c
     = Raises (ValueError "Confidence must be between 0.0 and 1.0"))
  ∨ (blank isspace n = false ∧ Domain.confidence_in_range c = true ∧
     Category_new isspace lower n c
     = Returns (mkCategory (replace SPACE [LOW_LINE] (lower (strip isspace n))) c)).
Proof.
  unfold Category_new. destruct (blank isspace n) eqn:Hb.
  - left. split; [reflexivity|].
    apply text_strip_empty_blank in Hb. rewrite Hb. simpl. now rewrite orb_true_r.
  - right. assert (Hs : strip isspace n ≠ []).
    { intros E. apply text_strip_empty_blank in E. congruence. }
    assert (Hn : n ≠ []) by (intros ->; discriminate).
    apply text_truthy in Hs, Hn. rewrite Hs, Hn. simpl.
    destruct (Domain.confidence_in_range c); simpl; [right|left]; auto.
Qed.

Lemma text_Category_new_returns n c cat :
  Category_new isspace lower n c = Returns cat →
  blank isspace n = false ∧ Domain.confidence_in_range c = true ∧
  cat = mkCategory (replace SPACE [LOW_LINE] (lower (strip isspace n))) c.
Proof.
  intros H.
  destruct (text_Category_new_cases n c) as [[_ E]|[(_ & _ & E)|(Hb & Hc & E)]];
    rewrite E in H; try discriminate.
  injection H as <-. auto.
Qed.

Lemma text_Category_new_normalized n c cat :
  Category_new isspace lower n c = Returns cat →
  normalized isspace lower (name cat).
Proof.
  intros (Hb & _ & ->)%text_Category_new_returns. simpl.
  apply text_normalize_normalized.
  intros E. apply text_strip_empty_blank in E. congruence.
Qed.

(** A normalized name passes the constructor unchanged. *)
Lemma text_Category_new_fixed s c :
  normalized isspace lower s → Domain.confidence_in_range c = true →
  Category_new isspace lower s c = Returns (mkCategory s c).
Proof.
  intros [Hne Hs Hl Hsp] Hc.
  destruct (text_Category_new_cases s c) as [[Hb _]|[(_ & Hc' & _)|(_ & _ & E)]].
  - apply text_strip_empty_blank in Hb. congruence.
  - congruence.
  - rewrite E, Hs, Hl. now rewrite (text_replace_fixed SPACE [LOW_LINE] s Hsp).
Qed.

(** The name built from a response has no punctuation left. *)
Lemma text_punctuation_free raw ch :
  In ch punctuation →
  ¬ In ch (replace SPACE [LOW_LINE]
             (lower (strip isspace
                (fold_left (fun acc char => replace char [] acc) punctuation
                           (lower (strip isspace raw)))))).
Proof.
  intros Hin H. apply text_replace_in in H as [H|H].
  - destruct H as [<-|[]]. revert Hin. vm_compute. intuition discriminate.
  - revert H. apply (lower_punctuation _ _ tables); [exact Hin|].
    intros H%text_strip_in. revert H. now apply text_remove_fold_removes.
Qed.

End Laws.

(** *** The instance *)

Lemma isspace_table_true n :
  isspace_table n = true → (n <= 32 ∨ n = 133 ∨ n = 160 ∨ 5760 <= n)%N.
Proof.
  unfold isspace_table.
  rewrite !orb_true_iff, !andb_true_iff, !N.leb_le, !N.eqb_eq. lia.
Qed.

Lemma lower_code_cases n :
  lower_code n = n
  ∨ (lower_code n = n + 32 ∧ (65 <= n <= 90 ∨ 192 <= n <= 222))%N.
Proof.
  unfold lower_code.
  destruct ((65 <=? n)%N && (n <=? 90)%N
            || (192 <=? n)%N && (n <=? 222)%N && negb (n =? 215)%N) eqn:E;
    [right|now left].
  split; [reflexivity|].
  rewrite !orb_true_iff, !andb_true_iff, !N.leb_le in E. lia.
Qed.

Lemma lower_code_fixed n :
  (n < 65 ∨ 90 < n < 192 ∨ 222 < n)%N → lower_code n = n.
Proof.
  intros H. unfold lower_code.
  destruct ((65 <=? n)%N && (n <=? 90)%N
            || (192 <=? n)%N && (n <=? 222)%N && negb (n =? 215)%N) eqn:E;
    [|reflexivity].
  rewrite !orb_true_iff, !andb_true_iff, !N.leb_le in E. lia.
Qed.

Lemma isspace_lower_code n : isspace_table (lower_code n) = isspace_table n.
Proof.
  destruct (lower_code_cases n) as [->|[-> Hr]]; [reflexivity|].
  destruct (isspace_table (n + 32)) eqn:E1; [apply isspace_table_true in E1; lia|].
  destruct (isspace_table n) eqn:E2; [apply isspace_table_true in E2; lia|].
  reflexivity.
Qed.

Lemma lower_code_idempotent n : lower_code (lower_code n) = lower_code n.
Proof.
  destruct (lower_code_cases n) as [E|[E Hr]]; rewrite E; [exact E|].
  apply lower_code_fixed. lia.
Qed.

(** A capital is mapped to a letter, and nothing else is changed. *)
Lemma lower_code_below_capitals n m :
  (m < 65 ∨ 90 < m < 97 ∨ 122 < m < 192)%N → lower_code n = m → n = m.
Proof.
  intros Hm. destruct (lower_code_cases n) as [->|[-> Hr]]; [auto|lia].
Qed.

Lemma lower_latin1_replace s :
  lower_latin1 (replace SPACE [LOW_LINE] s)
  = replace SPACE [LOW_LINE] (lower_latin1 s).
Proof.
  unfold lower_latin1. induction s as [|c r IH]; [reflexivity|].
  rewrite text_replace_cons. cbn [map]. rewrite text_replace_cons, IH. f_equal.
  destruct (N.eqb_spec c SPACE) as [->|Hc]; [reflexivity|].
  destruct (N.eqb_spec (lower_code c) SPACE) as [E|_]; [|reflexivity].
  apply lower_code_below_capitals in E; [contradiction|]. unfold SPACE. lia.
Qed.

Lemma lower_latin1_punctuation s ch :
  In ch punctuation → ¬ In ch s → ¬ In ch (lower_latin1 s).
Proof.
  intros Hin Hs H. unfold lower_latin1 in H. apply in_map_iff in H as (c & E & Hc).
  apply lower_code_below_capitals in E; [congruence|].
  unfold punctuation in Hin. cbn [In] in Hin.
  repeat (destruct Hin as [<-|Hin]; [lia|]). destruct Hin.
Qed.

Lemma latin1_tables_ok : tables_ok isspace_table lower_latin1.
Proof.
  split.
  - reflexivity.
  - intros s. unfold lower_latin1. destruct s; [reflexivity|discriminate].
  - intros s. unfold lower_latin1. rewrite map_map. apply map_ext.
    intros c. apply lower_code_idempotent.
  - intros s. unfold lower_latin1, strip.
    rewrite (text_lstrip_map _ _ _ isspace_lower_code).
    now rewrite (text_rstrip_map _ _ _ isspace_lower_code).
  - apply lower_latin1_replace.
  - apply lower_latin1_punctuation.
Qed.

End UnicodeFacts.

Module CategoryClaims.
Import Py Unicode UnicodeFacts.

(** C9. Category normalization is idempotent: whenever
    [Category.from_ai_response] succeeds on a raw text and yields a
    category, normalizing that category's name again succeeds and yields
    the same category (same name, same confidence).  The text is any
    sequence of code points; of [str.isspace] and [str.lower] the
    properties [tables_ok] are used. *)
Theorem normalization_idempotent (isspace : N → bool) (lower : str → str)
        (raw : str) (c : float) (cat : Category) :
  tables_ok isspace lower →
  from_ai_response isspace lower raw c = Returns cat →
  from_ai_response isspace lower (name cat) (confidence cat) = Returns cat.
Proof.
  intros tables H. unfold from_ai_response in H.
  pose proof (text_Category_new_normalized _ _ tables _ _ _ H) as Hnorm.
  apply (text_Category_new_returns _ _) in H as (_ & Hc & ->).
  cbn [name confidence] in *.
  set (n := replace SPACE [LOW_LINE] (lower (strip isspace _))) in *.
  unfold from_ai_response.
  rewrite (norm_strip _ _ n Hnorm), (norm_lower _ _ n Hnorm).
  rewrite text_remove_fold_fixed.
  - now apply text_Category_new_fixed.
  - intros ch Hin. now apply text_punctuation_free.
Qed.

Lemma normalization_idempotent_witness :
  from_ai_response isspace_table lower_latin1 (codes "teddy_bears") 1%float
  = Returns (mkCategory (codes "teddy_bears") 1%float).
Proof.
  apply (normalization_idempotent isspace_table lower_latin1
           (codes "  Teddy Bears!  ") 1%float
           (mkCategory (codes "teddy_bears") 1%float)).
  - exact latin1_tables_ok.
  - reflexivity.
Defined.

(** C10. Every [Category] that the constructor returns has a non-empty,
    all-lowercase name without space characters and a confidence in
    [0.0, 1.0], and [is_valid] holds of it; the constructor raises on an
    empty or white-space-only name and on a confidence outside
    [0.0, 1.0].  The text is any sequence of code points; of
    [str.isspace] and [str.lower] the properties [tables_ok] are used. *)
Theorem category_invariant (isspace : N → bool) (lower : str → str)
        (n : str) (c : float) :
  tables_ok isspace lower →
  (∀ cat, Category_new isspace lower n c = Returns cat →
     name cat ≠ []
     ∧ lower (name cat) = name cat
     ∧ ¬ In SPACE (name cat)
     ∧ Domain.confidence_in_range (confidence cat) = true
     ∧ is_valid isspace cat = true)
  ∧ (blank isspace n = true → raised (Category_new isspace lower n c))
  ∧ (Domain.confidence_in_range c = false →
     raised (Category_new isspace lower n c)).
Proof.
  intros tables. split; [|split].
  - intros cat H.
    pose proof (text_Category_new_normalized _ _ tables _ _ _ H) as [Hne Hs Hl Hsp].
    apply (text_Category_new_returns _ _) in H as (_ & Hc & E).
    repeat split; try assumption.
    + now rewrite E.
    + unfold is_valid. rewrite Hs. apply text_truthy in Hne. now rewrite Hne.
  - intros Hb.
    destruct (text_Category_new_cases isspace lower n c)
      as [[_ E]|[(Hb' & _)|(Hb' & _)]];
      [eexists; exact E|congruence|congruence].
  - intros Hc.
    destruct (text_Category_new_cases isspace lower n c)
      as [[_ E]|[(_ & _ & E)|(_ & Hc' & _)]];
      [eexists; exact E|eexists; exact E|congruence].
Qed.

Lemma category_invariant_witness :
  is_valid isspace_table (mkCategory (codes "teddy_bears") 1%float) = true
  ∧ raised (Category_new isspace_table lower_latin1 (codes "   ") 1%float)
  ∧ raised (Category_new isspace_table lower_latin1 (codes "flowers") 2%float).
Proof.
  split; [|split].
  - apply (proj1 (category_invariant isspace_table lower_latin1
                    (codes " Teddy Bears ") 1%float latin1_tables_ok)
                 (mkCategory (codes "teddy_bears") 1%float)).
    reflexivity.
  - apply (proj1 (proj2 (category_invariant isspace_table lower_latin1
                           (codes "   ") 1%float latin1_tables_ok))).
    reflexivity.
  - apply (proj2 (proj2 (category_invariant isspace_table lower_latin1
                           (codes "flowers") 2%float latin1_tables_ok))).
    reflexivity.
Defined.

End CategoryClaims.

(* ===================================================================== *)
(** ** The string model is the code-point model below 256                 *)
(* ===================================================================== *)

Module ModelFacts.
Import Py Unicode PyFacts UnicodeFacts.















End ModelFacts.

(* ===================================================================== *)
(** ** Binary64 arithmetic: rounding is monotone                          *)
(* ===================================================================== *)

Module FloatFacts.
Import Py Rounding.

(** [SpecFloat] rounds by shifting the mantissa right while it keeps
    track of the bits that fall off.  On an exact mantissa this is
    [rne], the result is a multiple of [grid] (or an infinity), and so
    rounding is monotone in the value; the conversion of an [int], the
    product with a float that is not negative, and [int] are then
    monotone as well. *)

(** *** Shifting *)










(** *** Rounding to nearest on a grid *)

Lemma rne_cases a d :
  0 < d ->
  exists q r, a = d * q + r /\ 0 <= r < d
    /\ (rne a d = q \/ rne a d = q + 1)
    /\ (2 * r < d -> rne a d = q)
    /\ (d < 2 * r -> rne a d = q + 1)
    /\ (r = 0 -> rne a d = q).
Proof.
  intros Hd. exists (a / d), (a mod d).
  pose proof (Z.div_mod a d ltac:(lia)) as E.
  pose proof (Z.mod_pos_bound a d Hd) as Hr.
  unfold rne.
  destruct (Z.ltb_spec (2 * (a mod d)) d); [repeat split; auto; lia|].
  destruct (Z.ltb_spec d (2 * (a mod d))); [repeat split; auto; lia|].
  destruct (Z.even (a / d)); repeat split; auto; lia.
Qed.






(** *** Digits *)









(** *** [binary_round_aux] on an exact mantissa *)










(** *** The conversion of an [int] *)







(** *** Products and truncation *)




Lemma finite_nonneg f : finite_sf f -> nonneg_sf f.
Proof. destruct f as [[]|[]| |[] m e]; cbn; tauto. Qed.





(** *** The scale factor *)








End FloatFacts.

(* ===================================================================== *)
(** ** The rasterizer (claims C5, C8)                                     *)
(* ===================================================================== *)

Module ConverterFacts.
Import Py Converter Spec.

Ltac run := cbn [mbind result_bind bind mret result_ret].

(** *** The drawing loop *)

Lemma draw_stitches_app min_x min_y scale i l1 l2 st :
  draw_stitches min_x min_y scale i (l1 ++ l2) st
  = (st1 ← draw_stitches min_x min_y scale i l1 st;
     draw_stitches min_x min_y scale (i + Z.of_nat (length l1)) l2 st1).
Proof.
  revert i st. induction l1 as [|s l1 IH]; intros i st.
  - cbn [app draw_stitches length]. run. now rewrite Z.add_0_r.
  - cbn [app draw_stitches].
    destruct (draw_step min_x min_y scale i st s) as [st'|e]; run; [|reflexivity].
    rewrite IH.
    replace (i + 1 + Z.of_nat (length l1)) with (i + Z.of_nat (length (s :: l1)))
      by (cbn [length]; lia).
    reflexivity.
Qed.

(** A replay that returns has returned on every prefix. *)
Lemma draw_stitches_app_returns min_x min_y scale i l1 l2 st after :
  draw_stitches min_x min_y scale i (l1 ++ l2) st = Returns after →
  ∃ st1, draw_stitches min_x min_y scale i l1 st = Returns st1
         ∧ draw_stitches min_x min_y scale (i + Z.of_nat (length l1)) l2 st1
           = Returns after.
Proof.
  rewrite draw_stitches_app.
  destruct (draw_stitches min_x min_y scale i l1 st) as [st1|e]; run;
    [eauto|discriminate].
Qed.

(** What one iteration does to the anchor and to the lines. *)
Lemma draw_step_shape min_x min_y scale i st s st' :
  draw_step min_x min_y scale i st s = Returns st' →
  ∃ op,
    transformed min_x min_y scale s = Returns op
    ∧ (prev_point st' = None
       ∨ prev_point st' = op ∧ op ≠ None
       ∨ prev_point st' = prev_point st ∧ op = None)
    ∧ (drawn st' = drawn st
       ∨ ∃ p q, prev_point st = Some p ∧ op = Some q
                ∧ is_draw_segment s
                ∧ drawn st' = drawn st ++ [mkLine p q (stitch_color st) 2]).
Proof.
  destruct s as [|x [|y rest]]; cbn [transformed draw_step].
  - intros [= <-]. exists None.
    split; [reflexivity|]. split; [right; right; auto|left; reflexivity].
  - intros [= <-]. exists None.
    split; [reflexivity|]. split; [right; right; auto|left; reflexivity].
  - destruct (adjust min_x scale x) as [ax|]; run; [|discriminate].
    destruct (adjust min_y scale y) as [ay|]; run; [|discriminate].
    set (cmd := match rest with [] => STITCH | c :: _ => c end).
    assert (Hcmd : command_of (x :: y :: rest) = Some cmd) by (destruct rest; reflexivity).
    exists (Some (ax, ay)). split; [reflexivity|].
    destruct (cmd =? COLOR_CHANGE) eqn:E1.
    { injection H as <-. cbn. split; [right; left; split; [reflexivity|discriminate]|now left]. }
    destruct (cmd =? JUMP) eqn:E2.
    { injection H as <-. cbn. split; [right; left; split; [reflexivity|discriminate]|now left]. }
    destruct ((cmd =? TRIM) || (cmd =? STOP)) eqn:E3.
    { injection H as <-. cbn. split; now left. }
    injection H as <-. cbn [prev_point drawn].
    split; [right; left; split; [reflexivity|discriminate]|].
    destruct (prev_point st) as [p|]; [|now left].
    destruct (cmd =? STITCH) eqn:E4; [|now left].
    right. exists p, (ax, ay).
    apply Z.eqb_eq in E4. unfold is_draw_segment. rewrite Hcmd, E4. auto.
Qed.

(** Every line drawn while replaying [l] joins canvas points of commands
    of [l], except that the first may start at the initial anchor. *)
Lemma drawn_joins min_x min_y scale i l st after :
  draw_stitches min_x min_y scale i l st = Returns after →
  ∃ new,
    drawn after = drawn st ++ new
    ∧ Forall (joins min_x min_y scale (prev_point st) l) new.
Proof.
  revert i st. induction l as [|s l IH]; intros i st.
  - cbn [draw_stitches]. intros [= <-]. exists []. now rewrite app_nil_r.
  - cbn [draw_stitches].
    destruct (draw_step min_x min_y scale i st s) as [st'|e] eqn:Es; run;
      [|discriminate].
    intros Hrest. destruct (IH _ _ Hrest) as (new & Hd & Hj).
    destruct (draw_step_shape _ _ _ _ _ _ _ Es) as (op & Hop & Hp & Hl).
    assert (Hnew : Forall (joins min_x min_y scale (prev_point st) (s :: l)) new).
    { eapply Forall_impl; [exact Hj|]. intros ln [Hfrom (b & Hb & Hto)]. split.
      - destruct Hfrom as [Hfrom|(a & Ha & Hfrom)].
        + destruct Hp as [Hp|[[Hp _]|[Hp _]]].
          * congruence.
          * right. exists s. split; [now left|congruence].
          * left. congruence.
        + right. exists a. split; [now right|assumption].
      - exists b. split; [now right|assumption]. }
    destruct Hl as [Hl|(p & q & Hp0 & Hq & _ & Hl)].
    + exists new. rewrite Hd, Hl. auto.
    + exists (mkLine p q (stitch_color st) 2 :: new). rewrite Hd, Hl, <- app_assoc.
      split; [reflexivity|]. constructor; [|exact Hnew].
      split; cbn [line_from line_to]; [now left|].
      exists s. split; [now left|congruence].
Qed.

Lemma draw_step_trim min_x min_y scale i st t :
  is_trim_or_stop t →
  draw_step min_x min_y scale i st t
  = (_ ← transformed min_x min_y scale t;
     Returns (mkPen None (stitch_color st) (drawn st))).
Proof.
  intros Ht. destruct t as [|x [|y [|c rest]]];
    try (destruct Ht as [Ht|Ht]; discriminate).
  assert (Hc : c = TRIM ∨ c = STOP).
  { destruct Ht as [Ht|Ht]; injection Ht as ->; auto. }
  cbn [transformed draw_step].
  destruct (adjust min_x scale x); run; [|reflexivity].
  destruct (adjust min_y scale y); run; [|reflexivity].
  destruct Hc as [-> | ->]; reflexivity.
Qed.

Lemma draw_step_first_segment min_x min_y scale i st d :
  is_draw_segment d → prev_point st = None →
  draw_step min_x min_y scale i st d
  = (p ← transformed min_x min_y scale d;
     Returns (mkPen p (stitch_color st) (drawn st))).
Proof.
  intros Hd Hp. destruct d as [|x [|y [|c rest]]]; try discriminate;
    cbn [transformed draw_step];
    (destruct (adjust min_x scale x); run; [|reflexivity]);
    (destruct (adjust min_y scale y); run; [|reflexivity]).
  - cbn. now rewrite Hp.
  - injection Hd as ->. cbn. now rewrite Hp.
Qed.

Lemma draw_step_color_change min_x min_y scale i st s :
  is_color_change s →
  draw_step min_x min_y scale i st s
  = (p ← transformed min_x min_y scale s;
     Returns (mkPen p (palette_entry (i / 100)) (drawn st))).
Proof.
  intros Hs. destruct s as [|x [|y [|c rest]]]; try discriminate.
  injection Hs as ->. cbn [transformed draw_step].
  destruct (adjust min_x scale x); run; [|reflexivity].
  destruct (adjust min_y scale y); run; reflexivity.
Qed.

Lemma y_coords_nonempty (stitches : list stitch) :
  x_coords stitches ≠ [] → y_coords stitches ≠ [].
Proof.
  induction stitches as [|s l IH]; simpl; [tauto|].
  destruct s as [|a [|b r]]; auto; discriminate.
Qed.

(** *** [min], [max] of a list *)







(** A replay that returns has converted the coordinates of every
    stitch. *)
Lemma draw_stitches_transformed min_x min_y scale i l st after :
  draw_stitches min_x min_y scale i l st = Returns after →
  ∀ s, In s l → ∃ op, transformed min_x min_y scale s = Returns op.
Proof.
  revert i st. induction l as [|s0 l IH]; intros i st H s Hin; [destruct Hin|].
  cbn [draw_stitches] in H.
  destruct (draw_step min_x min_y scale i st s0) as [st'|] eqn:Es;
    cbn [mbind result_bind bind] in H; [|discriminate].
  destruct Hin as [<-|Hin].
  - destruct (draw_step_shape _ _ _ _ _ _ _ Es) as (op & Hop & _). eauto.
  - eapply IH; eassumption.
Qed.

End ConverterFacts.

Module ConverterClaims.
Import Py Converter Spec ConverterFacts.

(** C5, as the code has it.  On a color-change command the stroke color
    becomes the palette entry [(i // 100) mod 6], where [i] is the
    position of the command in the stitch sequence (every element
    counted), the anchor becomes the command's own canvas point and no
    line is drawn: replaying the sequence up to and including the command
    is replaying it up to the command, converting the command's
    coordinates, and leaving the pen with that anchor, that color and the
    lines drawn before. *)
Theorem color_change_by_position (min_x min_y : Z) (scale : float)
        (pre : list stitch) (s : stitch) (st : pen) :
  is_color_change s →
  draw_stitches min_x min_y scale 0 (pre ++ [s]) st
  = (before ← draw_stitches min_x min_y scale 0 pre st;
     p ← transformed min_x min_y scale s;
     Returns (mkPen p (palette_entry (Z.of_nat (length pre) / 100)) (drawn before))).
Proof.
  intros Hs. rewrite draw_stitches_app.
  destruct (draw_stitches min_x min_y scale 0 pre st) as [before|e]; run;
    [|reflexivity].
  cbn [draw_stitches]. rewrite (draw_step_color_change _ _ _ _ _ s Hs).
  rewrite Z.add_0_l.
  destruct (transformed min_x min_y scale s); run; reflexivity.
Qed.

Lemma color_change_by_position_witness :
  draw_stitches 0 0 1 0 ([[0; 0; STITCH]] ++ [[10; 0; COLOR_CHANGE]]) initial_pen
  = Returns (mkPen (Some (60, 50))
                   (palette_entry (Z.of_nat (length [[0; 0; STITCH]]) / 100)) []).
Proof.
  refine (eq_trans
            (color_change_by_position 0 0 1 [[0; 0; STITCH]] [10; 0; COLOR_CHANGE]
                                      initial_pen _) _).
  - reflexivity.
  - reflexivity.
Defined.

(** C5, as stated, fails: two successive color changes at positions 1 and 2
    both select "black", so they are not consecutive entries [k mod 6],
    [(k + 1) mod 6] of the palette for any numbering [k] of the
    color-change events. *)
Lemma color_change_not_counted :
  let color_after l :=
    st ← draw_stitches 0 0 1 0 l initial_pen; Returns (stitch_color st) in
  color_after [[0; 0; STITCH]; [10; 0; COLOR_CHANGE]] = Returns "black"%string
  ∧ color_after [[0; 0; STITCH]; [10; 0; COLOR_CHANGE]; [20; 0; COLOR_CHANGE]]
    = Returns "black"%string
  ∧ ¬ ∃ k : Z,
        color_after [[0; 0; STITCH]; [10; 0; COLOR_CHANGE]]
        = Returns (palette_entry k)
        ∧ color_after [[0; 0; STITCH]; [10; 0; COLOR_CHANGE]; [20; 0; COLOR_CHANGE]]
          = Returns (palette_entry (k + 1)).
Proof.
  intros color_after.
  assert (E1 : color_after [[0; 0; STITCH]; [10; 0; COLOR_CHANGE]]
               = Returns "black"%string) by (vm_compute; reflexivity).
  assert (E2 : color_after [[0; 0; STITCH]; [10; 0; COLOR_CHANGE]; [20; 0; COLOR_CHANGE]]
               = Returns "black"%string) by (vm_compute; reflexivity).
  split; [exact E1|]. split; [exact E2|].
  intros (k & H1 & H2). rewrite E1 in H1. rewrite E2 in H2.
  injection H1 as H1. injection H2 as H2.
  unfold palette_entry in H1, H2. change (Z.of_nat (length colors)) with 6 in H1, H2.
  assert (Hk : (k + 1) mod 6 = (k mod 6 + 1) mod 6).
  { rewrite Z.add_mod by lia. now rewrite (Z.mod_small 1 6) by lia. }
  rewrite Hk in H2. pose proof (Z.mod_pos_bound k 6 ltac:(lia)) as Hb.
  assert (Hc : k mod 6 = 0 ∨ k mod 6 = 1 ∨ k mod 6 = 2 ∨ k mod 6 = 3
               ∨ k mod 6 = 4 ∨ k mod 6 = 5) by lia.
  destruct Hc as [E|[E|[E|[E|[E|E]]]]]; rewrite E in H1, H2;
    vm_compute in H1, H2; congruence.
Qed.

(** C8, as the code has it.  A trim or stop command clears the anchor:
    every line drawn after it joins the canvas points of two commands that
    come after it, never a point from before; and a draw-segment that
    directly follows it draws nothing and only becomes the new anchor. *)
Theorem trim_breaks_continuity (min_x min_y : Z) (scale : float) (i : Z)
        (pre post : list stitch) (t : stitch) (st after : pen) :
  is_trim_or_stop t →
  draw_stitches min_x min_y scale i (pre ++ t :: post) st = Returns after →
  ∃ before,
    draw_stitches min_x min_y scale i pre st = Returns before
    ∧ (∃ new,
         drawn after = drawn before ++ new
         ∧ Forall (λ ln, ∃ a b, In a post ∧ In b post
                     ∧ transformed min_x min_y scale a = Returns (Some (line_from ln))
                     ∧ transformed min_x min_y scale b = Returns (Some (line_to ln)))
                  new)
    ∧ (∀ d, is_draw_segment d →
         draw_stitches min_x min_y scale i (pre ++ [t; d]) st
         = (p ← transformed min_x min_y scale d;
            Returns (mkPen p (stitch_color before) (drawn before)))).
Proof.
  intros Ht Hafter.
  destruct (draw_stitches_app_returns _ _ _ _ _ _ _ _ Hafter) as (before & Hpre & Hrest).
  exists before. split; [exact Hpre|].
  cbn [draw_stitches] in Hrest. rewrite (draw_step_trim _ _ _ _ _ t Ht) in Hrest.
  destruct (transformed min_x min_y scale t) as [pt|e] eqn:Et; run; [|discriminate].
  split.
  - destruct (drawn_joins _ _ _ _ _ _ _ Hrest) as (new & Hd & Hj).
    exists new. split; [exact Hd|].
    eapply Forall_impl; [exact Hj|]. cbn [prev_point].
    intros ln [[Hfrom|(a & Ha & Hfrom)] (b & Hb & Hto)]; [discriminate|].
    exists a, b. auto.
  - intros d Hd. rewrite draw_stitches_app, Hpre. run.
    cbn [draw_stitches]. rewrite (draw_step_trim _ _ _ _ _ t Ht), Et. run.
    rewrite (draw_step_first_segment _ _ _ _ _ d Hd) by reflexivity.
    destruct (transformed min_x min_y scale d); run; reflexivity.
Qed.

Lemma trim_breaks_continuity_witness :
  draw_stitches 0 0 1 0 ([[0; 0; STITCH]; [10; 0; STITCH]] ++ [[10; 0; TRIM]; [30; 0; STITCH]])
                initial_pen
  = Returns (mkPen (Some (80, 50)) "black" [mkLine (50, 50) (60, 50) "black" 2]).
Proof.
  destruct (trim_breaks_continuity 0 0 1 0 [[0; 0; STITCH]; [10; 0; STITCH]]
              [[30; 0; STITCH]; [40; 0; STITCH]] [10; 0; TRIM] initial_pen
              (mkPen (Some (90, 50)) "black"
                     [mkLine (50, 50) (60, 50) "black" 2;
                      mkLine (80, 50) (90, 50) "black" 2]))
    as (before & Hpre & _ & Hd).
  - left. reflexivity.
  - reflexivity.
  - refine (eq_trans (Hd [30; 0; STITCH] eq_refl) _).
    injection Hpre as <-. reflexivity.
Defined.

(** C8, as stated, fails in its parenthetical: after a trim, a jump sets
    the anchor again, so the first draw-segment after the trim does draw a
    line, from the jump's canvas point to its own. *)
Lemma first_segment_after_trim_draws :
  let pre := [[0; 0; STITCH]; [10; 0; STITCH]] in
  let t := [10; 0; TRIM] in
  let j := [30; 0; JUMP] in
  let d := [40; 0; STITCH] in
  is_trim_or_stop t
  ∧ ¬ is_draw_segment j
  ∧ is_draw_segment d
  ∧ draw_stitches 0 0 1 0 (pre ++ [t; j]) initial_pen
    = Returns (mkPen (Some (80, 50)) "black" [mkLine (50, 50) (60, 50) "black" 2])
  ∧ draw_stitches 0 0 1 0 (pre ++ [t; j; d]) initial_pen
    = Returns (mkPen (Some (90, 50)) "black"
                     [mkLine (50, 50) (60, 50) "black" 2;
                      mkLine (80, 50) (90, 50) "black" 2]).
Proof.
  cbv zeta. split; [left; reflexivity|]. split; [discriminate|].
  split; [reflexivity|]. split; vm_compute; reflexivity.
Qed.

End ConverterClaims.

(* ===================================================================== *)
(** ** Classification, the service and the use case                       *)
(* ===================================================================== *)

Module StrategyFacts.
Import Py Domain Strategy Spec CategoryFacts.

Ltac run := cbn [attempts try_except mbind result_bind bind].

Lemma other_returns : other = Returns other_category.
Proof. reflexivity. Qed.

(** A successful attempt yields a category; a failed one is retried or
    ends in "other". *)
Lemma attempts_never_raise max_retries api pending :
  ∃ oc, attempts max_retries api pending = Returns oc.
Proof.
  induction pending as [|k rest IH]; run; [eauto|].
  destruct (api k) as [content|e]; run.
  - destruct (from_ai_response (lower (strip content)) 1) as [cat|e]; run.
    + destruct (is_valid cat); [eauto|]. rewrite other_returns. run. eauto.
    + destruct (Z.of_nat k <? max_retries - 1); [exact IH|].
      rewrite other_returns. run. eauto.
  - destruct (Z.of_nat k <? max_retries - 1); [exact IH|].
    rewrite other_returns. run. eauto.
Qed.

Lemma attempt_fails_step max_retries api k rest :
  attempt_fails (api k) →
  attempts max_retries api (k :: rest)
  = if Z.of_nat k <? max_retries - 1 then attempts max_retries api rest
    else Returns (Some other_category).
Proof.
  intros Hf. run. destruct (api k) as [content|e]; run.
  - destruct Hf as [e He]. rewrite He. run.
    destruct (Z.of_nat k <? max_retries - 1); reflexivity.
  - destruct (Z.of_nat k <? max_retries - 1); reflexivity.
Qed.

Lemma attempts_all_fail max_retries api (m k : nat) :
  (∀ j : nat, Z.of_nat j < max_retries → attempt_fails (api j)) →
  Z.of_nat (k + S m) = max_retries →
  attempts max_retries api (seq k (S m)) = Returns (Some other_category).
Proof.
  intros Hall. revert k. induction m as [|m IH]; intros k Hk.
  - change (seq k 1) with [k]. rewrite attempt_fails_step by (apply Hall; lia).
    destruct (Z.of_nat k <? max_retries - 1) eqn:E; [|reflexivity].
    apply Z.ltb_lt in E. lia.
  - change (seq k (S (S m))) with (k :: seq (S k) (S m)).
    rewrite attempt_fails_step by (apply Hall; lia).
    destruct (Z.of_nat k <? max_retries - 1) eqn:E.
    + apply IH. lia.
    + reflexivity.
Qed.

Lemma categorize_image_never_raises max_retries image_exists b :
  ∃ oc, categorize_image max_retries image_exists b = Returns oc.
Proof.
  unfold categorize_image. destruct image_exists; cbn [negb]; [|eauto].
  destruct (image_readable b); cbn [negb].
  - apply attempts_never_raise.
  - rewrite other_returns. run. eauto.
Qed.

(** With at least one attempt, an existing image and every attempt
    failing, [categorize_image] returns "other". *)
Lemma categorize_image_degrades max_retries b :
  1 <= max_retries →
  image_readable b = false ∨ all_attempts_fail max_retries b →
  categorize_image max_retries true b = Returns (Some other_category).
Proof.
  intros Hm Hf. unfold categorize_image. cbn [negb].
  destruct (image_readable b) eqn:Er; cbn [negb]; [|reflexivity].
  destruct Hf as [Hf|Hf]; [discriminate|].
  destruct (Z.to_nat max_retries) as [|m] eqn:Em; [lia|].
  apply (attempts_all_fail max_retries (completion b) m 0 Hf). lia.
Qed.

(** Whatever the number of attempts, the category the service ends up
    with is "other" when every attempt fails. *)
Lemma categorize_image_other_or_none max_retries b :
  image_readable b = false ∨ all_attempts_fail max_retries b →
  categorize_image max_retries true b = Returns (Some other_category)
  ∨ categorize_image max_retries true b = Returns None.
Proof.
  intros Hf. destruct (Z_le_gt_dec 1 max_retries) as [Hm|Hm].
  - left. now apply categorize_image_degrades.
  - unfold categorize_image. cbn [negb]. destruct (image_readable b); cbn [negb].
    + right. replace (Z.to_nat max_retries) with 0%nat by lia. reflexivity.
    + left. reflexivity.
Qed.

End StrategyFacts.

Module ServiceFacts.
Import Py Domain Spec Service StrategyFacts.

(** *** One file *)

(** A file whose conversion does not return [True] fails before any
    classification. *)
Lemma process_not_rendered w n st file :
  convert (file_env w n) ≠ Returns true →
  _process_single_file w n (st, file)
  = (Returns false,
     (mkState (temp_images st ++ [_create_temp_jpg_path w (file_name file)])
              (disk st) (calls st ++ [CallConvert n]), file)).
Proof.
  intros Hc. unfold _process_single_file.
  destruct (convert (file_env w n)) as [[|]|e]; [congruence|reflexivity..].
Qed.

(** A rendered file whose availability probe fails is given up without a
    copy. *)
Lemma process_probe_fails w n st file :
  convert (file_env w n) = Returns true →
  Strategy.probe (backend (file_env w n)) = false →
  _process_single_file w n (st, file)
  = (Returns false,
     (mkState (temp_images st ++ [_create_temp_jpg_path w (file_name file)])
              ({[_create_temp_jpg_path w (file_name file)]} ∪ disk st)
              ((calls st ++ [CallConvert n]) ++ [CallCategorize n]),
      set_jpg_path file (_create_temp_jpg_path w (file_name file)))).
Proof.
  intros Hc Hp. unfold _process_single_file. rewrite Hc. cbn [temp_images disk calls].
  unfold Strategy.context_categorize_image, Strategy.is_available. rewrite Hp.
  reflexivity.
Qed.

(** A rendered file whose probe succeeds is classified and handed to the
    copy; the outcome is the outcome of the copy. *)
Lemma process_rendered w n st file :
  convert (file_env w n) = Returns true →
  Strategy.probe (backend (file_env w n)) = true →
  ∃ c,
    (Strategy.categorize_image (max_retries w) true (backend (file_env w n))
     = Returns (Some c)
     ∨ (Strategy.categorize_image (max_retries w) true (backend (file_env w n))
        = Returns None ∧ c = other_category))
    ∧ _process_single_file w n (st, file)
      = (Returns (copy_ok (file_env w n)),
         (mkState (temp_images st ++ [_create_temp_jpg_path w (file_name file)])
                  ({[_create_temp_jpg_path w (file_name file)]} ∪ disk st)
                  (((calls st ++ [CallConvert n]) ++ [CallCategorize n])
                     ++ [CallCopy n (name c)]),
          assign_category
            (set_jpg_path file (_create_temp_jpg_path w (file_name file))) c)).
Proof.
  intros Hc Hp. unfold _process_single_file. rewrite Hc. cbn [temp_images disk calls].
  unfold Strategy.context_categorize_image, Strategy.is_available. rewrite Hp.
  cbn [negb].
  rewrite bool_decide_eq_true_2 by set_solver.
  destruct (categorize_image_never_raises (max_retries w) true (backend (file_env w n)))
    as [oc Hoc].
  rewrite Hoc. destruct oc as [c|].
  - exists c. split; [now left|].
    unfold Repository.copy_file_to_category_folder. cbn [category assign_category].
    destruct (copy_ok (file_env w n)); reflexivity.
  - exists other_category. split; [now right|].
    rewrite other_returns.
    unfold Repository.copy_file_to_category_folder. cbn [category assign_category].
    destruct (copy_ok (file_env w n)); reflexivity.
Qed.

(** What every run of [_process_single_file] does: it returns, it records
    the preview path, it deletes nothing, and its calls carry its file
    number. *)
Lemma process_effects w n st file :
  ∃ b st' file',
    _process_single_file w n (st, file) = (Returns b, (st', file'))
    ∧ temp_images st' = temp_images st ++ [_create_temp_jpg_path w (file_name file)]
    ∧ disk st ⊆ disk st'
    ∧ ∃ new, calls st' = calls st ++ new ∧ Forall (λ c, call_number c = n) new.
Proof.
  destruct (convert (file_env w n)) as [[|]|e] eqn:Hc.
  - destruct (Strategy.probe (backend (file_env w n))) eqn:Hp.
    + destruct (process_rendered w n st file Hc Hp) as (c & _ & E).
      rewrite E. eexists _, _, _. split; [reflexivity|]. cbn [temp_images disk calls].
      split; [reflexivity|]. split; [set_solver|].
      exists [CallConvert n; CallCategorize n; CallCopy n (name c)].
      split; [now rewrite <- !app_assoc|]. repeat constructor.
    + rewrite (process_probe_fails w n st file Hc Hp).
      eexists _, _, _. split; [reflexivity|]. cbn [temp_images disk calls].
      split; [reflexivity|]. split; [set_solver|].
      exists [CallConvert n; CallCategorize n].
      split; [now rewrite <- !app_assoc|]. repeat constructor.
  - rewrite process_not_rendered by congruence.
    eexists _, _, _. split; [reflexivity|]. cbn [temp_images disk calls].
    split; [reflexivity|]. split; [set_solver|].
    exists [CallConvert n]. split; [reflexivity|]. repeat constructor.
  - rewrite process_not_rendered by congruence.
    eexists _, _, _. split; [reflexivity|]. cbn [temp_images disk calls].
    split; [reflexivity|]. split; [set_solver|].
    exists [CallConvert n]. split; [reflexivity|]. repeat constructor.
Qed.

(** *** The loop *)

(** *** The loop *)

Lemma loop_body_effects w sa idx acc file :
  loop_effects w sa idx [file] acc (loop_body w sa idx acc file).
Proof.
  destruct acc as [r st]. unfold loop_body.
  change (match sa with Some n => idx <=? n | None => false end)
    with (skipped sa idx).
  destruct (skipped sa idx) eqn:Hs.
  - split; cbn [fst snd preview_paths]; rewrite ?Hs; cbn [app length];
      rewrite ?app_nil_r; try reflexivity; try lia.
    exists []. split; [now rewrite app_nil_r|constructor].
  - destruct (process_effects w idx st file) as (b & st' & file' & E & Ht & Hd & new & Hc & Hn).
    rewrite E.
    assert (Hcalls : ∃ new0, calls st' = calls st ++ new0
                     ∧ Forall (λ c, idx <= call_number c
                                    ∧ skipped sa (call_number c) = false) new0).
    { exists new. split; [exact Hc|]. eapply Forall_impl; [exact Hn|].
      intros c ->. split; [lia|exact Hs]. }
    destruct b; split; cbn [fst snd preview_paths total_files processed_files
                              failed_files errors skipped_files];
      rewrite ?Hs; cbn [app length]; try reflexivity; try lia; try assumption.
Qed.

Lemma loop_effects_cons w sa idx file rest a b c :
  loop_effects w sa idx [file] a b →
  loop_effects w sa (idx + 1) rest b c →
  loop_effects w sa idx (file :: rest) a c.
Proof.
  intros [E1 T1 S1 C1 F1 P1 M1 D1 (n1 & K1 & A1)] [E2 T2 S2 C2 F2 P2 M2 D2 (n2 & K2 & A2)].
  cbn [preview_paths] in *. rewrite app_nil_r in M1, C1.
  split; cbn [preview_paths]; try congruence; try lia.
  - rewrite C2, C1, !length_app. lia.
  - rewrite M2, M1. now rewrite app_assoc.
  - set_solver.
  - exists (n1 ++ n2). split; [rewrite K2, K1; now rewrite app_assoc|].
    apply Forall_app. split; [exact A1|].
    eapply Forall_impl; [exact A2|]. intros x [? ?]. split; [lia|assumption].
Qed.

Lemma loop_effects_all w sa files :
  ∀ idx acc, loop_effects w sa idx files acc (loop w sa idx files acc).
Proof.
  induction files as [|file rest IH]; intros idx acc.
  - split; cbn [loop preview_paths length]; rewrite ?app_nil_r; try reflexivity; try lia.
    exists []. split; [now rewrite app_nil_r|constructor].
  - cbn [loop]. eapply loop_effects_cons; [apply loop_body_effects|apply IH].
Qed.

Lemma loop_app w sa l1 l2 :
  ∀ idx acc,
    loop w sa idx (l1 ++ l2) acc
    = loop w sa (idx + Z.of_nat (length l1)) l2 (loop w sa idx l1 acc).
Proof.
  induction l1 as [|f l1 IH]; intros idx acc.
  - simpl. now rewrite Z.add_0_r.
  - cbn [app loop]. rewrite IH. f_equal. simpl length. lia.
Qed.

(** Files numbered up to the resume index leave everything as it is. *)
Lemma loop_all_skipped w n files :
  ∀ idx acc, idx + Z.of_nat (length files) - 1 <= n →
             loop w (Some n) idx files acc = acc.
Proof.
  induction files as [|f rest IH]; intros idx acc Hle; [reflexivity|].
  cbn [loop]. simpl length in Hle.
  assert (Hs : (idx <=? n) = true) by (apply Z.leb_le; lia).
  unfold loop_body at 1. destruct acc as [r st]. rewrite Hs.
  apply IH. lia.
Qed.

(** Past the resume index the loop runs as without one. *)
Lemma loop_past_resume w n files :
  ∀ idx acc, n < idx → loop w (Some n) idx files acc = loop w None idx files acc.
Proof.
  induction files as [|f rest IH]; intros idx acc Hlt; [reflexivity|].
  cbn [loop]. rewrite IH by lia. f_equal.
  unfold loop_body. destruct acc as [r st].
  assert (Hs : (idx <=? n) = false) by (apply Z.leb_gt; lia).
  now rewrite Hs.
Qed.

Lemma loop_resume w n files acc :
  0 <= n →
  loop w (Some n) 1 files acc
  = loop w None (n + 1) (drop (Z.to_nat n) files) acc.
Proof.
  intros Hn. rewrite <- (take_drop (Z.to_nat n) files) at 1.
  rewrite loop_app.
  rewrite (loop_all_skipped w n (take (Z.to_nat n) files)).
  - destruct (Z_le_gt_dec (Z.of_nat (length files)) n) as [Hlen|Hlen].
    + rewrite drop_ge by lia. reflexivity.
    + rewrite length_take, Nat.min_l by lia.
      rewrite Z2Nat.id by lia. rewrite Z.add_comm.
      apply loop_past_resume. lia.
  - rewrite length_take. lia.
Qed.

Lemma preview_paths_all w files :
  ∀ idx, length (preview_paths w None idx files) = length files.
Proof.
  induction files as [|f rest IH]; intros idx; [reflexivity|].
  cbn [preview_paths skipped app length]. now rewrite IH.
Qed.

Lemma cleanup_keeps_calls w st : calls (_cleanup_temp_images w st) = calls st.
Proof. unfold _cleanup_temp_images. destruct (temp_images st); reflexivity. Qed.

Lemma cleanup_empties w st : temp_images (_cleanup_temp_images w st) = [].
Proof.
  unfold _cleanup_temp_images. destruct (temp_images st) eqn:E; [exact E|reflexivity].
Qed.

Lemma cleanup_removes w st p :
  In p (temp_images st) → unlink_ok w p = true →
  p ∉ disk (_cleanup_temp_images w st).
Proof.
  intros Hin Hok. unfold _cleanup_temp_images.
  destruct (temp_images st) as [|q l] eqn:E; [destruct Hin|].
  cbn [disk]. intros Hd. apply elem_of_difference in Hd as [_ Hd]. apply Hd.
  apply elem_of_list_to_set, list_elem_of_In, filter_In. split; assumption.
Qed.

End ServiceFacts.

Module ServiceClaims.
Import Py Domain Spec Service StrategyFacts ServiceFacts Scenarios.

Lemma categorize_failed_nonneg w sa st :
  0 <= failed_files (fst (categorize_files_in_directory w sa st)).
Proof.
  unfold categorize_files_in_directory.
  destruct (available w); cbn [negb]; [|simpl; lia].
  destruct (find_pes_files w) as [files|e]; [|simpl; lia].
  destruct files as [|f rest]; [simpl; lia|].
  set (acc := (_, st)).
  pose proof (le_failed _ _ _ _ _ _ (loop_effects_all w sa (f :: rest) 1 acc)) as H.
  destruct (loop w sa 1 (f :: rest) acc) as [r s]. cbn [fst] in *.
  subst acc. cbn [fst] in H. destruct sa; simpl in H; lia.
Qed.

(** C1, as the code has it.  The success flag is true exactly when the
    failed count is strictly below the total count; a batch without
    candidate files (total = 0) therefore reports no success. *)
Theorem success_iff_failed_below_total (env : UseCase.Env) (input_directory : string)
        (start_after : option Z) (st : State) :
  let report := fst (UseCase.execute env input_directory start_after st) in
  (UseCase.success report = true
   ↔ failed_files (UseCase.results report) < total_files (UseCase.results report))
  ∧ (total_files (UseCase.results report) = 0 → UseCase.success report = false).
Proof.
  unfold UseCase.execute.
  destruct (UseCase.input_exists env); cbn [negb];
    [|simpl; split; [split; [discriminate|lia]|reflexivity]].
  destruct (UseCase.input_is_directory env); cbn [negb];
    [|simpl; split; [split; [discriminate|lia]|reflexivity]].
  destruct (UseCase.mkdir env) as [[]|e];
    [|simpl; split; [split; [discriminate|lia]|reflexivity]].
  pose proof (categorize_failed_nonneg (UseCase.world env) start_after st) as Hf.
  destruct (categorize_files_in_directory (UseCase.world env) start_after st) as [r s].
  cbn [fst UseCase.success UseCase.results] in *. split.
  - apply Z.ltb_lt.
  - intros H0. apply Z.ltb_ge. lia.
Qed.

Lemma success_iff_failed_below_total_witness :
  UseCase.success (fst (UseCase.execute (env_of empty_world) "designs" None fresh))
  = false.
Proof.
  apply (proj2 (success_iff_failed_below_total (env_of empty_world) "designs" None fresh)).
  reflexivity.
Defined.

(** C1, as stated, fails: on a directory without candidate files the
    batch has total = 0 and failed = 0 and does not report success. *)
Lemma empty_batch_reports_no_success :
  let report := fst (UseCase.execute (env_of empty_world) "designs" None fresh) in
  total_files (UseCase.results report) = 0
  ∧ failed_files (UseCase.results report) = 0
  ∧ UseCase.success report ≠ true.
Proof. repeat split. discriminate. Qed.

(** The loop never records an error for a file that fails. *)
Lemma failed_items_leave_no_error w sa st files :
  available w = true → find_pes_files w = Returns files →
  errors (fst (categorize_files_in_directory w sa st)) = [].
Proof.
  intros Ha Hf. unfold categorize_files_in_directory. rewrite Ha, Hf. cbn [negb].
  destruct files as [|f rest]; [reflexivity|].
  set (acc := (_, st)).
  pose proof (le_errors _ _ _ _ _ _ (loop_effects_all w sa (f :: rest) 1 acc)) as H.
  destruct (loop w sa 1 (f :: rest) acc) as [r s]. cbn [fst] in *.
  rewrite H. subst acc. destruct sa; reflexivity.
Qed.

(** C2 on the code: in the batch of three designs (one without stitches,
    one filed under "flowers", one whose copy fails) two files fail and the
    error list stays empty. *)
Theorem failed_files_without_error_entries :
  let r := fst (categorize_files_in_directory three_designs None fresh) in
  total_files r = 3 ∧ processed_files r = 1 ∧ failed_files r = 2
  ∧ categories_found r = {["flowers"%string]}
  ∧ errors r = [].
Proof.
  cbv zeta. repeat split; reflexivity.
Qed.

End ServiceClaims.

Module BatchClaims.
Import Py Domain Spec Service StrategyFacts ServiceFacts Scenarios.

(** C3, as the code has it.  For a rendered file whose availability probe
    (issued by the context before every classification) succeeds:
    with at least one attempt configured, [categorize_image] returns
    "other" when the image cannot be read or every attempt fails; the file
    is always handed to the copy with a category, "other" in those cases;
    the outcome of the file is the outcome of the copy, and the loop counts
    it as processed or failed accordingly without an error entry. *)
Theorem classification_degrades_to_other (w : World) (n : Z) (r : Results)
        (st : State) (file : EmbroideryFile) :
  convert (file_env w n) = Returns true →
  Strategy.probe (backend (file_env w n)) = true →
  let b := backend (file_env w n) in
  let placed := copy_ok (file_env w n) in
  let every_attempt_fails :=
    Strategy.image_readable b = false ∨ all_attempts_fail (max_retries w) b in
  (1 <= max_retries w → every_attempt_fails →
   Strategy.categorize_image (max_retries w) true b = Returns (Some other_category))
  ∧ (∃ c st' file',
       _process_single_file w n (st, file) = (Returns placed, (st', file'))
       ∧ category file' = Some c
       ∧ calls st' = calls st ++ [CallConvert n; CallCategorize n; CallCopy n (name c)]
       ∧ (every_attempt_fails → c = other_category))
  ∧ (let r' := fst (loop_body w None n (r, st) file) in
     processed_files r' = processed_files r + (if placed then 1 else 0)
     ∧ failed_files r' = failed_files r + (if placed then 0 else 1)
     ∧ errors r' = errors r).
Proof.
  intros Hc Hp b placed every_attempt_fails.
  destruct (process_rendered w n st file Hc Hp) as (c & Hcat & E).
  split; [|split].
  - intros Hm Hf. now apply categorize_image_degrades.
  - eexists c, _, _. split; [exact E|]. split; [reflexivity|].
    cbn [calls]. split; [now rewrite <- !app_assoc|].
    intros Hf.
    destruct (categorize_image_other_or_none (max_retries w) b Hf) as [Ho|Ho];
      fold b in Hcat; rewrite Ho in Hcat;
      destruct Hcat as [Hcat|[Hcat ->]]; congruence.
  - unfold loop_body. rewrite E. fold placed.
    destruct placed; cbn [fst processed_files failed_files errors]; repeat split; lia.
Qed.

Lemma classification_degrades_to_other_witness :
  Strategy.categorize_image 3 true
    (Strategy.mkBackend true true (λ _, Raises (OtherError "timeout")))
  = Returns (Some other_category).
Proof.
  refine (proj1 (classification_degrades_to_other
    (world_of [design "rose"]
       (λ _, mkFileEnv (Returns true)
               (Strategy.mkBackend true true (λ _, Raises (OtherError "timeout")))
               true))
    1 initial_results fresh (design "rose") _ _) _ _).
  - reflexivity.
  - reflexivity.
  - vm_compute. discriminate.
  - right. intros k _. exact I.
Defined.

(** C3, as stated, fails: a design that renders and whose copy would go
    through is counted as failed, and is never handed to the copy, when
    the backend is down at the time it is to be classified. *)
Lemma unavailable_backend_fails_the_file :
  let out := categorize_files_in_directory backend_down None fresh in
  convert (file_env backend_down 1) = Returns true
  ∧ copy_ok (file_env backend_down 1) = true
  ∧ processed_files (fst out) = 0
  ∧ failed_files (fst out) = 1
  ∧ calls (snd out) = [CallConvert 1; CallCategorize 1].
Proof. cbv zeta. repeat split; reflexivity. Qed.

(** C4, as the code has it.  The preview path joins the cleanup list as
    soon as it is created, whatever becomes of the file; nothing is
    deleted while the loop over the files runs; once the loop has ended
    the cleanup empties the list and every accumulated preview that can be
    unlinked is gone from the disk. *)
Theorem previews_removed_when_batch_ends (w : World) (start_after : option Z)
        (st : State) (files : list EmbroideryFile) :
  available w = true →
  find_pes_files w = Returns files →
  files ≠ [] →
  (∀ n s file,
     temp_images (fst (snd (_process_single_file w n (s, file))))
     = temp_images s ++ [_create_temp_jpg_path w (file_name file)])
  ∧ (∀ index l acc, disk (snd acc) ⊆ disk (snd (loop w start_after index l acc)))
  ∧ (let st' := snd (categorize_files_in_directory w start_after st) in
     temp_images st' = []
     ∧ ∀ p, In p (temp_images st) ∨ In p (preview_paths w start_after 1 files) →
            unlink_ok w p = true → p ∉ disk st').
Proof.
  intros Ha Hf Hne. split; [|split].
  - intros n s file.
    destruct (process_effects w n s file) as (b & st' & file' & E & Ht & _).
    now rewrite E.
  - intros index l acc. apply (le_disk _ _ _ _ _ _ (loop_effects_all w start_after l index acc)).
  - unfold categorize_files_in_directory. rewrite Ha, Hf. cbn [negb].
    destruct files as [|f rest]; [congruence|].
    set (acc := (_, st)).
    pose proof (le_temp _ _ _ _ _ _ (loop_effects_all w start_after (f :: rest) 1 acc)) as Ht.
    destruct (loop w start_after 1 (f :: rest) acc) as [r s]. subst acc.
    cbn [fst snd] in *. split; [apply cleanup_empties|].
    intros p Hin Hok. apply cleanup_removes; [|exact Hok].
    rewrite Ht. apply in_or_app. exact Hin.
Qed.

Lemma previews_removed_when_batch_ends_witness :
  temp_images (snd (categorize_files_in_directory two_designs None fresh)) = [].
Proof.
  refine (proj1 (proj2 (proj2
    (previews_removed_when_batch_ends two_designs None fresh
       [design "rose"; design "tulip"] _ _ _)))).
  - reflexivity.
  - reflexivity.
  - discriminate.
Defined.

(** C4, as stated, fails: when the second of two designs begins, the
    preview of the first, which has been processed to the end, is still
    on the disk. *)
Lemma preview_survives_into_next_file :
  let start := (with_skipped (with_total initial_results 2) 0, fresh) in
  let second_begins := loop_body two_designs None 1 start (design "rose") in
  loop two_designs None 1 [design "rose"; design "tulip"] start
  = loop two_designs None 2 [design "tulip"] second_begins
  ∧ processed_files (fst second_begins) = 1
  ∧ "/tmp/embroidery_categorizer/rose.jpg"%string ∈ disk (snd second_begins).
Proof.
  cbv zeta. split; [cbn [loop]; reflexivity|]. split; [reflexivity|].
  vm_compute disk. set_solver.
Qed.

(** C6, as the code has it.  For a non-empty list of discovered files and
    a resume index [n > 0], the result records [n] as the skipped count and
    the batch is the batch over the files after the first [n], numbered
    from [n + 1]: each of those counts once as processed or failed, and no
    file numbered [n] or below is converted, classified or copied. *)
Theorem resume_skips_leading_files (w : World) (n : Z) (st : State)
        (files : list EmbroideryFile) :
  0 < n →
  available w = true →
  find_pes_files w = Returns files →
  files ≠ [] →
  let out := categorize_files_in_directory w (Some n) st in
  let remaining := drop (Z.to_nat n) files in
  let start :=
    (with_skipped (with_total initial_results (Z.of_nat (length files))) n, st) in
  skipped_files (fst out) = Some n
  ∧ out = (fst (loop w None (n + 1) remaining start),
           _cleanup_temp_images w (snd (loop w None (n + 1) remaining start)))
  ∧ processed_files (fst out) + failed_files (fst out) = Z.of_nat (length remaining)
  ∧ ∃ new, calls (snd out) = calls st ++ new ∧ Forall (λ c, n < call_number c) new.
Proof.
  intros Hn Ha Hf Hne out remaining start.
  assert (E : out = (fst (loop w None (n + 1) remaining start),
                     _cleanup_temp_images w (snd (loop w None (n + 1) remaining start)))).
  { subst out remaining start.
    unfold categorize_files_in_directory. rewrite Ha, Hf. cbn [negb].
    destruct files as [|f rest]; [congruence|]. cbv beta iota.
    rewrite loop_resume by lia.
    now destruct (loop w None (n + 1) _ _). }
  pose proof (loop_effects_all w None remaining (n + 1) start) as L.
  rewrite E. cbn [fst snd]. split; [|split; [reflexivity|split]].
  - now rewrite (le_skipped _ _ _ _ _ _ L).
  - rewrite (le_count _ _ _ _ _ _ L), preview_paths_all. subst start. simpl. lia.
  - destruct (le_calls _ _ _ _ _ _ L) as (new & Hc & Hall).
    exists new. rewrite cleanup_keeps_calls. split; [exact Hc|].
    eapply Forall_impl; [exact Hall|]. intros c [? _]. lia.
Qed.

Lemma resume_skips_leading_files_witness :
  skipped_files (fst (categorize_files_in_directory two_designs (Some 1) fresh))
  = Some 1.
Proof.
  refine (proj1 (resume_skips_leading_files two_designs 1 fresh
                   [design "rose"; design "tulip"] _ _ _ _)).
  - lia.
  - reflexivity.
  - reflexivity.
  - discriminate.
Defined.

(** C6, as stated, fails: with no discovered file the batch returns before
    the skipped count is recorded. *)
Lemma resume_index_not_recorded_without_files :
  find_pes_files empty_world = Returns []
  ∧ skipped_files (fst (categorize_files_in_directory empty_world (Some 2) fresh))
    ≠ Some 2.
Proof. split; [reflexivity|discriminate]. Qed.

End BatchClaims.

(* ===================================================================== *)
(** ** Folder names and the category lists                                *)
(* ===================================================================== *)

Module LanguageFacts.
Import Py Domain Spec LanguageMapper StrategyTrace CategoryFacts.

Lemma lookup_en : CATEGORY_MAPPINGS !! "en"%string = Some (list_to_map en_items).
Proof. reflexivity. Qed.

Lemma lookup_pt_BR :
  CATEGORY_MAPPINGS !! "pt-BR"%string = Some (list_to_map pt_BR_items).
Proof. reflexivity. Qed.

Lemma supported_cases language :
  is_language_supported language = true →
  language = "en"%string ∨ language = "pt-BR"%string.
Proof.
  unfold is_language_supported. intros [m Hm]%bool_decide_eq_true_1.
  apply elem_of_list_to_map_2 in Hm. simpl in Hm.
  apply elem_of_cons in Hm as [Hm|Hm]; [left; congruence|].
  apply elem_of_cons in Hm as [Hm|Hm]; [right; congruence|].
  now apply elem_of_nil in Hm.
Qed.

Lemma en_lookup c folder :
  (list_to_map en_items : gmap string string) !! c = Some folder → folder = c.
Proof.
  intros H%elem_of_list_to_map_2.
  assert (Hall : Forall (λ kv : string * string, snd kv = fst kv) en_items)
    by (repeat constructor).
  rewrite Forall_forall in Hall. exact (Hall _ H).
Qed.

Lemma get_folder_name_en c : get_folder_name c "en" = Returns c.
Proof.
  unfold get_folder_name.
  change (is_language_supported "en") with true. cbn [negb]. rewrite lookup_en.
  destruct (_ !! c) as [folder|] eqn:E; [|reflexivity].
  now rewrite (en_lookup c folder E).
Qed.

Lemma get_folder_name_unsupported c language :
  is_language_supported language = false → get_folder_name c language = Returns c.
Proof.
  intros Hs. unfold get_folder_name. rewrite Hs. cbn [negb]. rewrite lookup_en.
  destruct (_ !! c) as [folder|] eqn:E; [|reflexivity].
  now rewrite (en_lookup c folder E).
Qed.

Lemma get_folder_name_elsewhere c language :
  String.eqb language "pt-BR" = false → get_folder_name c language = Returns c.
Proof.
  intros Hl%String.eqb_neq. destruct (is_language_supported language) eqn:Hs.
  - destruct (supported_cases language Hs) as [-> | ->]; [|congruence].
    apply get_folder_name_en.
  - now apply get_folder_name_unsupported.
Qed.

(** X1. In English, and in every language other than "pt-BR" (an
    unsupported code falls back to English), the folder of a category is
    the category name itself, whether the category is a known one or
    not. *)
Theorem folder_name_outside_pt_BR (c language : string) :
  language ≠ "pt-BR"%string → get_folder_name c language = Returns c.
Proof.
  intros Hl. destruct (is_language_supported language) eqn:Hs.
  - destruct (supported_cases language Hs) as [-> | ->]; [|congruence].
    apply get_folder_name_en.
  - now apply get_folder_name_unsupported.
Qed.

Lemma folder_name_outside_pt_BR_witness :
  get_folder_name "flowers" "fr" = Returns "flowers"%string.
Proof. apply folder_name_outside_pt_BR. discriminate. Defined.

Lemma get_folder_name_pt_BR c :
  get_folder_name c "pt-BR"
  = Returns (match (list_to_map pt_BR_items : gmap string string) !! c with
             | Some folder => folder
             | None => c
             end).
Proof.
  unfold get_folder_name.
  change (is_language_supported "pt-BR") with true. cbn [negb].
  now rewrite lookup_pt_BR.
Qed.

(** X2. In "pt-BR" the sixteen supported categories go to sixteen
    different folders, and a category outside the list keeps its own
    name as the folder. *)
Theorem pt_BR_folders (c1 c2 : string) :
  (In c1 get_supported_categories → In c2 get_supported_categories →
   get_folder_name c1 "pt-BR" = get_folder_name c2 "pt-BR" → c1 = c2)
  ∧ (¬ In c1 get_supported_categories → get_folder_name c1 "pt-BR" = Returns c1).
Proof.
  split.
  - intros H1 H2. unfold get_supported_categories in H1, H2. simpl in H1, H2.
    repeat (destruct H1 as [<-|H1];
            [repeat (destruct H2 as [<-|H2];
                     [vm_compute; intros E; first [reflexivity|discriminate E]|]);
             destruct H2|]).
    destruct H1.
  - intros Hn. rewrite get_folder_name_pt_BR.
    destruct (_ !! c1) as [folder|] eqn:E; [|reflexivity].
    exfalso. apply Hn. apply elem_of_list_to_map_2 in E.
    apply list_elem_of_In.
    change get_supported_categories with (map fst pt_BR_items).
    apply list_elem_of_fmap. exists (c1, folder). split; [reflexivity|exact E].
Qed.

Lemma pt_BR_folders_witness :
  get_folder_name "ribbons" "pt-BR" = Returns "ribbons"%string.
Proof.
  apply (proj2 (pt_BR_folders "ribbons" "ribbons")).
  vm_compute. intros H. repeat (destruct H as [H|H]; [discriminate H|]). exact H.
Defined.

Lemma get_folder_name_returns (c language : string) :
  ∃ folder, get_folder_name c language = Returns folder
            ∧ (c ≠ EmptyString → folder ≠ EmptyString).
Proof.
  destruct (String.eqb language "pt-BR") eqn:El.
  - apply String.eqb_eq in El as ->. rewrite get_folder_name_pt_BR.
    eexists. split; [reflexivity|]. intros Hc.
    destruct (_ !! c) as [folder|] eqn:E; [|exact Hc].
    apply elem_of_list_to_map_2 in E.
    assert (Hall : Forall (λ kv : string * string, snd kv ≠ EmptyString) pt_BR_items)
      by (repeat constructor; discriminate).
    rewrite Forall_forall in Hall. exact (Hall _ E).
  - exists c. split; [|auto]. now apply get_folder_name_elsewhere.
Qed.

(** X3. [get_folder_name] never raises, whatever the text and the language
    code (the fallback language is a key of the table); and for a category
    that the constructor returned, [Category.get_folder_name] gives a
    folder name that is not empty. *)
Theorem category_folder_never_empty (n : string) (c : float) (cat : Category)
        (language : string) :
  (∀ text, ∃ folder, get_folder_name text language = Returns folder)
  ∧ (Category_new n c = Returns cat →
     ∃ folder, category_folder_name cat language = Returns folder
               ∧ folder ≠ EmptyString).
Proof.
  split.
  - intros text. destruct (get_folder_name_returns text language) as (f & Hf & _). eauto.
  - intros H. apply Category_new_normalized in H as [Hne _ _ _].
    destruct (get_folder_name_returns (name cat) language) as (f & Hf & Hn).
    exists f. split; [exact Hf|auto].
Qed.

Lemma category_folder_never_empty_witness :
  ∃ folder,
    category_folder_name (mkCategory "teddy_bears" 1%float) "pt-BR" = Returns folder
    ∧ folder ≠ EmptyString.
Proof.
  apply (proj2 (category_folder_never_empty " Teddy Bears " 1%float
                  (mkCategory "teddy_bears" 1%float) "pt-BR")).
  reflexivity.
Defined.

(** X4. [is_language_supported] accepts exactly the codes that
    [get_supported_languages] lists. *)
Theorem supported_languages_agree (language : string) :
  is_language_supported language = true ↔ In language get_supported_languages.
Proof.
  split.
  - intros H. destruct (supported_cases language H) as [-> | ->]; simpl; auto.
  - simpl. intros [<-|[<-|[]]]; reflexivity.
Qed.

(** X5. Each supported category is a fixed point of the normalization,
    and so is its folder name in every language: what the prompt lists is
    what the category and its folder are called. *)
Theorem supported_categories_roundtrip (c language : string) :
  In c get_supported_categories →
  from_ai_response c 1%float = Returns (mkCategory c 1%float)
  ∧ ∃ folder,
      get_folder_name c language = Returns folder
      ∧ from_ai_response folder 1%float = Returns (mkCategory folder 1%float).
Proof.
  intros Hc.
  assert (Hfix : from_ai_response c 1%float = Returns (mkCategory c 1%float)).
  { unfold get_supported_categories in Hc. simpl in Hc.
    repeat (destruct Hc as [<-|Hc]; [reflexivity|]). destruct Hc. }
  split; [exact Hfix|].
  destruct (String.eqb language "pt-BR") eqn:El.
  - apply String.eqb_eq in El as ->.
    unfold get_supported_categories in Hc. simpl in Hc.
    repeat (destruct Hc as [<-|Hc]; [eexists; split; reflexivity|]). destruct Hc.
  - exists c. split; [now apply get_folder_name_elsewhere|exact Hfix].
Qed.

Lemma supported_categories_roundtrip_witness :
  from_ai_response "teddy_bears" 1%float = Returns (mkCategory "teddy_bears" 1%float)
  ∧ ∃ folder,
      get_folder_name "teddy_bears" "pt-BR" = Returns folder
      ∧ from_ai_response folder 1%float = Returns (mkCategory folder 1%float).
Proof.
  apply (supported_categories_roundtrip "teddy_bears" "pt-BR").
  left. reflexivity.
Defined.

End LanguageFacts.

(* ===================================================================== *)
(** ** More on the retry loop                                             *)
(* ===================================================================== *)

Module RetryFacts.
Import Py Domain Strategy StrategyTrace Spec PyFacts CategoryFacts StrategyFacts.

Lemma normalized_is_valid (c : Category) : normalized (name c) → is_valid c = true.
Proof.
  intros [Hne Hs _ _]. unfold is_valid. rewrite Hs.
  apply truthy_true in Hne. now rewrite Hne.
Qed.

Lemma response_normalized raw c cat :
  from_ai_response raw c = Returns cat →
  normalized (name cat) ∧ confidence cat = c.
Proof.
  unfold from_ai_response. intros H. split.
  - now apply Category_new_normalized in H.
  - now apply Category_new_returns in H as (_ & _ & ->).
Qed.

Lemma other_normalized : normalized (name other_category).
Proof. apply (Category_new_normalized "other" 1%float). reflexivity. Qed.

Lemma attempt_success_step max_retries api k rest content cat :
  api k = Returns content →
  from_ai_response (lower (strip content)) 1%float = Returns cat →
  attempts max_retries api (k :: rest) = Returns (Some cat).
Proof.
  intros Ha Hc. run. rewrite Ha. run. rewrite Hc. run.
  destruct (response_normalized _ _ _ Hc) as [Hn _].
  now rewrite (normalized_is_valid cat Hn).
Qed.

(** With the last attempt among the pending ones the loop does not fall
    through. *)
Lemma attempts_some max_retries api (j : nat) :
  ∀ k : nat, Z.of_nat (k + S j) = max_retries →
             ∃ c, attempts max_retries api (seq k (S j)) = Returns (Some c).
Proof.
  induction j as [|j IH]; intros k Hk.
  - change (seq k 1) with [k].
    assert (Hlast : (Z.of_nat k <? max_retries - 1) = false) by (apply Z.ltb_ge; lia).
    run. destruct (api k) as [content|e]; run.
    + destruct (from_ai_response (lower (strip content)) 1) as [cat|e]; run.
      * destruct (is_valid cat); [eauto|]. rewrite other_returns. run. eauto.
      * rewrite Hlast, other_returns. run. eauto.
    + rewrite Hlast, other_returns. run. eauto.
  - change (seq k (S (S j))) with (k :: seq (S k) (S j)).
    assert (Hrest : ∃ c, (if Z.of_nat k <? max_retries - 1
                          then attempts max_retries api (seq (S k) (S j))
                          else (c ← other; Returns (Some c))) = Returns (Some c)).
    { destruct (Z.of_nat k <? max_retries - 1); [apply IH; lia|].
      rewrite other_returns. run. eauto. }
    run. destruct (api k) as [content|e]; run; [|exact Hrest].
    destruct (from_ai_response (lower (strip content)) 1) as [cat|e]; run;
      [|exact Hrest].
    destruct (is_valid cat); [eauto|]. rewrite other_returns. run. eauto.
Qed.

Lemma attempts_normalized max_retries api pending :
  ∀ c, attempts max_retries api pending = Returns (Some c) →
       normalized (name c) ∧ confidence c = 1%float.
Proof.
  assert (Hother : ∀ c, (c' ← other; Returns (Some c')) = Returns (Some c) →
                        normalized (name c) ∧ confidence c = 1%float).
  { intros c. rewrite other_returns. run. intros [= <-].
    split; [apply other_normalized|reflexivity]. }
  induction pending as [|k rest IH]; intros c; run; [discriminate|].
  destruct (api k) as [content|e]; run.
  - destruct (from_ai_response (lower (strip content)) 1) as [cat|e] eqn:E; run.
    + destruct (is_valid cat); [|apply Hother].
      intros [= <-]. exact (response_normalized _ _ _ E).
    + destruct (Z.of_nat k <? max_retries - 1); [apply IH|apply Hother].
  - destruct (Z.of_nat k <? max_retries - 1); [apply IH|apply Hother].
Qed.

(** X10. [categorize_image] never raises; it returns [None] exactly when
    the image file is missing, or the image is readable and no attempt is
    configured ([max_retries <= 0]).  In every other case a category comes
    back. *)
Theorem categorize_image_none_iff (max_retries : Z) (image_exists : bool)
        (b : Backend) :
  (∃ oc, categorize_image max_retries image_exists b = Returns oc)
  ∧ (categorize_image max_retries image_exists b = Returns None
     ↔ image_exists = false ∨ (image_readable b = true ∧ max_retries <= 0)).
Proof.
  split; [apply categorize_image_never_raises|].
  unfold categorize_image. destruct image_exists; cbn [negb].
  - destruct (image_readable b); cbn [negb].
    + destruct (Z.to_nat max_retries) as [|j] eqn:Ej.
      * cbn [seq attempts]. split; [intros _; right; split; [reflexivity|lia]|reflexivity].
      * destruct (attempts_some max_retries (completion b) j 0 ltac:(lia)) as [c Hc].
        rewrite Hc. split; [discriminate|]. intros [H|[_ H]]; [discriminate|lia].
    + rewrite other_returns. run.
      split; [discriminate|]. intros [H|[H _]]; discriminate.
  - split; [now left|reflexivity].
Qed.

Lemma attempts_first_success max_retries api (k : nat) content cat :
  Z.of_nat k < max_retries →
  (∀ j : nat, (j < k)%nat → attempt_fails (api j)) →
  api k = Returns content →
  from_ai_response (lower (strip content)) 1%float = Returns cat →
  ∀ (d i : nat), (i + d = k)%nat →
    attempts max_retries api (seq i (Z.to_nat max_retries - i)) = Returns (Some cat).
Proof.
  intros Hk Hfail Ha Hc. induction d as [|d IH]; intros i Hi.
  - assert (i = k) by lia. subst i.
    destruct (Z.to_nat max_retries - k)%nat as [|n] eqn:En; [lia|].
    change (seq k (S n)) with (k :: seq (S k) n).
    now apply (attempt_success_step max_retries api k _ content cat).
  - destruct (Z.to_nat max_retries - i)%nat as [|n] eqn:En; [lia|].
    change (seq i (S n)) with (i :: seq (S i) n).
    rewrite attempt_fails_step by (apply Hfail; lia).
    assert (Hlt : (Z.of_nat i <? max_retries - 1) = true) by (apply Z.ltb_lt; lia).
    rewrite Hlt. replace n with (Z.to_nat max_retries - S i)%nat by lia.
    apply IH. lia.
Qed.

(** X11. The first attempt that succeeds decides: when the attempts before
    attempt [k] fail and attempt [k] (one of the configured ones) answers
    with a text that normalizes to a category, that category is the result,
    whatever later attempts would have done. *)
Theorem first_successful_attempt_wins (max_retries : Z) (b : Backend) (k : nat)
        (content : string) (cat : Category) :
  image_readable b = true →
  Z.of_nat k < max_retries →
  (∀ j : nat, (j < k)%nat → attempt_fails (completion b j)) →
  completion b k = Returns content →
  from_ai_response (lower (strip content)) 1%float = Returns cat →
  categorize_image max_retries true b = Returns (Some cat).
Proof.
  intros Hr Hk Hfail Ha Hc. unfold categorize_image. cbn [negb]. rewrite Hr. cbn [negb].
  pose proof (attempts_first_success max_retries (completion b) k content cat
                Hk Hfail Ha Hc k 0%nat ltac:(lia)) as H.
  now rewrite Nat.sub_0_r in H.
Qed.

Lemma first_successful_attempt_wins_witness :
  categorize_image 3 true
    (mkBackend true true
       (λ k, match k with
             | 0%nat => Raises (OtherError "timeout")
             | 1%nat => Returns " . "%string
             | _ => Returns "Flowers."%string
             end))
  = Returns (Some (mkCategory "flowers" 1%float)).
Proof.
  apply (first_successful_attempt_wins 3 _ 2 "Flowers." (mkCategory "flowers" 1%float)).
  - reflexivity.
  - lia.
  - intros j Hj. destruct j as [|[|j]]; [exact I| |lia].
    cbn [completion attempt_fails]. eexists. reflexivity.
  - reflexivity.
  - reflexivity.
Defined.

End RetryFacts.

Module TraceFacts.
Import Py Domain Strategy StrategyTrace Spec Props StrategyFacts RetryFacts.

(** Forgetting the log gives back the loop of [categorize_image]. *)
Lemma traced_erasure max_retries api pending :
  fst (attempts_traced max_retries api pending) = attempts max_retries api pending.
Proof.
  induction pending as [|k rest IH]; [reflexivity|].
  cbn [attempts_traced attempts try_except].
  destruct (mbind _ (api k)) as [r|e]; [reflexivity|].
  destruct (Z.of_nat k <? max_retries - 1); [|reflexivity].
  destruct (attempts_traced max_retries api rest) as [r log]. exact IH.
Qed.

Lemma traced_shape max_retries api (j : nat) :
  ∀ k : nat, Z.of_nat (k + S j) = max_retries →
    ∃ r : nat,
      (1 <= r <= S j)%nat
      ∧ requests (snd (attempts_traced max_retries api (seq k (S j)))) = seq k r
      ∧ waits (snd (attempts_traced max_retries api (seq k (S j))))
        = map wait_before_retry (seq k (r - 1)).
Proof.
  induction j as [|j IH]; intros k Hk.
  - change (seq k 1) with [k].
    assert (Hlast : (Z.of_nat k <? max_retries - 1) = false) by (apply Z.ltb_ge; lia).
    exists 1%nat. cbn [attempts_traced]. rewrite Hlast.
    destruct (mbind _ (api k)); (split; [lia|split; reflexivity]).
  - change (seq k (S (S j))) with (k :: seq (S k) (S j)).
    assert (Hlt : (Z.of_nat k <? max_retries - 1) = true) by (apply Z.ltb_lt; lia).
    cbn [attempts_traced]. rewrite Hlt.
    destruct (mbind _ (api k)).
    + exists 1%nat. split; [lia|split; reflexivity].
    + destruct (IH (S k) ltac:(lia)) as (r & Hr & Hreq & Hw).
      destruct (attempts_traced max_retries api (seq (S k) (S j))) as [res log].
      cbn [snd] in *. exists (S r). split; [lia|]. split.
      * cbn [requests omap list_omap]. fold (requests log). now rewrite Hreq.
      * cbn [waits omap list_omap]. fold (waits log). rewrite Hw.
        replace (S r - 1)%nat with (S (r - 1)) by lia. reflexivity.
Qed.

Lemma sum_waits (n : nat) : ∀ k : nat,
  fold_right Z.add 0 (map wait_before_retry (seq k n))
  = Z.of_nat n * (2 * Z.of_nat k + Z.of_nat n + 1).
Proof.
  induction n as [|n IH]; intros k; [reflexivity|].
  cbn [seq map fold_right]. rewrite IH. unfold wait_before_retry. lia.
Qed.

(** X12. The retry loop with its waits: it computes what [categorize_image]
    computes; it issues the requests 0, 1, ..., r - 1 for some [r] that is
    at most [max_retries] (and at least 1 when an attempt is configured);
    it sleeps 2, 4, ..., 2(r - 1) seconds, once before each request but
    the first and never after the last, (r - 1) r seconds in all. *)
Theorem retry_log (max_retries : Z) (api : nat → result string) :
  let out := attempts_traced max_retries api (seq 0 (Z.to_nat max_retries)) in
  fst out = attempts max_retries api (seq 0 (Z.to_nat max_retries))
  ∧ ∃ r : nat,
      requests (snd out) = seq 0 r
      ∧ Z.of_nat r <= Z.max 0 max_retries
      ∧ (1 <= max_retries → (1 <= r)%nat)
      ∧ waits (snd out) = map wait_before_retry (seq 0 (r - 1))
      ∧ total_wait (snd out) = Z.of_nat (r - 1) * Z.of_nat r.
Proof.
  intros out. split; [apply traced_erasure|]. subst out.
  destruct (Z.to_nat max_retries) as [|j] eqn:Ej.
  - exists 0%nat. cbn. repeat split; try reflexivity; lia.
  - destruct (traced_shape max_retries api j 0 ltac:(lia)) as (r & Hr & Hreq & Hw).
    exists r. split; [exact Hreq|]. split; [lia|]. split; [lia|].
    split; [exact Hw|]. unfold total_wait. rewrite Hw, sum_waits. lia.
Qed.

Lemma retry_log_witness :
  ∃ r : nat,
    requests (snd (attempts_traced 3 (λ _, Raises (OtherError "timeout")) (seq 0 3)))
    = seq 0 r
    ∧ (1 <= r)%nat.
Proof.
  destruct (proj2 (retry_log 3 (λ _, Raises (OtherError "timeout"))))
    as (r & Hreq & _ & Hr & _).
  exists r. split; [exact Hreq|]. apply Hr. lia.
Defined.

End TraceFacts.

(* ===================================================================== *)
(** ** More on the rasterizer                                             *)
(* ===================================================================== *)

Module RenderFacts.
Import Py Converter Spec Props ConverterFacts.

Lemma x_coords_nil_iff (stitches : list stitch) :
  x_coords stitches = [] ↔ Forall (λ s, (length s < 2)%nat) stitches.
Proof.
  induction stitches as [|s l IH]; simpl.
  - split; [constructor|reflexivity].
  - destruct s as [|x [|y rest]]; simpl.
    + rewrite IH. split; [intros H; constructor; [simpl; lia|exact H]|].
      intros H. now inversion H.
    + rewrite IH. split; [intros H; constructor; [simpl; lia|exact H]|].
      intros H. now inversion H.
    + split; [discriminate|]. intros H. inversion H as [|? ? Hs _]. simpl in Hs. lia.
Qed.

Lemma render_none cfg pil stitches :
  x_coords stitches = [] → render cfg pil stitches = Returns None.
Proof.
  intros Hx. unfold render. destruct stitches as [|s l]; [reflexivity|].
  now rewrite Hx.
Qed.

(** The steps of a rendering whose pattern has coordinates. *)
Lemma render_some cfg pil stitches :
  x_coords stitches ≠ [] →
  let min_x := list_min (x_coords stitches) in
  let min_y := list_min (y_coords stitches) in
  let pattern_width := list_max (x_coords stitches) - min_x in
  let pattern_height := list_max (y_coords stitches) - min_y in
  render cfg pil stitches
  = (scale ← scale_factor cfg pattern_width pattern_height;
     img_width ← canvas_extent pattern_width scale;
     img_height ← canvas_extent pattern_height scale;
     _ ← Image_new pil img_width img_height (background_color cfg);
     st ← draw_stitches min_x min_y scale 0 stitches initial_pen;
     _ ← mkdir pil;
     _ ← save pil (mkImage img_width img_height (background_color cfg) (drawn st));
     Returns (Some (mkImage img_width img_height (background_color cfg) (drawn st)))).
Proof.
  intros Hx. pose proof (y_coords_nonempty stitches Hx) as Hy. cbv zeta.
  unfold render. destruct stitches as [|s0 l]; [now elim Hx|].
  destruct (x_coords (s0 :: l)); [now elim Hx|].
  destruct (y_coords (s0 :: l)); [now elim Hy|]. reflexivity.
Qed.

(** What has happened when a rendering returns an image. *)
Lemma render_returns cfg pil stitches img :
  render cfg pil stitches = Returns (Some img) →
  x_coords stitches ≠ []
  ∧ Image_new pil (img_width img) (img_height img) (background_color cfg) = Returns tt
  ∧ mkdir pil = Returns tt
  ∧ save pil img = Returns tt
  ∧ background img = background_color cfg
  ∧ ∃ scale st,
      scale_factor cfg
        (list_max (x_coords stitches) - list_min (x_coords stitches))
        (list_max (y_coords stitches) - list_min (y_coords stitches))
      = Returns scale
      ∧ canvas_extent (list_max (x_coords stitches) - list_min (x_coords stitches))
                      scale = Returns (img_width img)
      ∧ canvas_extent (list_max (y_coords stitches) - list_min (y_coords stitches))
                      scale = Returns (img_height img)
      ∧ draw_stitches (list_min (x_coords stitches)) (list_min (y_coords stitches))
                      scale 0 stitches initial_pen = Returns st
      ∧ lines img = drawn st.
Proof.
  intros Hr.
  assert (Hx : x_coords stitches ≠ []).
  { intros E. rewrite (render_none cfg pil stitches E) in Hr. discriminate. }
  split; [exact Hx|].
  rewrite (render_some cfg pil stitches Hx) in Hr. revert Hr.
  destruct (scale_factor cfg _ _) as [scale|]; run; [|discriminate].
  destruct (canvas_extent (list_max (x_coords stitches) - _) scale) as [w|] eqn:Ew;
    run; [|discriminate].
  destruct (canvas_extent (list_max (y_coords stitches) - _) scale) as [h|] eqn:Eh;
    run; [|discriminate].
  destruct (Image_new pil w h (background_color cfg)) as [[]|] eqn:En; run;
    [|discriminate].
  destruct (draw_stitches _ _ scale 0 stitches initial_pen) as [st|] eqn:Ed; run;
    [|discriminate].
  destruct (mkdir pil) as [[]|] eqn:Em; run; [|discriminate].
  destruct (save pil _) as [[]|] eqn:Es; run; [|discriminate].
  intros [= <-]. cbn [img_width img_height background lines].
  repeat split; try assumption. exists scale, st. auto.
Qed.

Lemma render_not_none cfg pil stitches :
  x_coords stitches ≠ [] → render cfg pil stitches ≠ Returns None.
Proof.
  intros Hx. rewrite (render_some cfg pil stitches Hx).
  destruct (scale_factor cfg _ _) as [scale|]; run; [|discriminate].
  destruct (canvas_extent (list_max (x_coords stitches) - _) scale) as [w|]; run;
    [|discriminate].
  destruct (canvas_extent (list_max (y_coords stitches) - _) scale) as [h|]; run;
    [|discriminate].
  destruct (Image_new pil w h (background_color cfg)) as [[]|]; run;
    [|discriminate].
  destruct (draw_stitches _ _ scale 0 stitches initial_pen) as [st|]; run;
    [|discriminate].
  destruct (mkdir pil) as [[]|]; run; [|discriminate].
  destruct (save pil _) as [[]|]; run; discriminate.
Qed.

(** *** The arithmetic and the library at work *)

(** A pattern 1161 units wide and 232 high is scaled by the double nearest
    to 700/1161; the product with 1161 falls just short of 700, so the
    canvas is 799 pixels wide. *)
Lemma scaled_width_rounds_down :
  render default_config Scenarios.pillow [[0; 0; STITCH]; [1161; 232; STITCH]]
  = Returns (Some (mkImage 799 239 "white" [mkLine (50, 50) (749, 189) "black" 2])).
Proof. vm_compute. reflexivity. Qed.

(** A pattern without height is not scaled; 65401 units wide, it gets a
    canvas of 65501 pixels, which is created and drawn on and then refused
    when it is saved. *)
Lemma wide_pattern_is_not_saved :
  convert_pes_to_jpg default_config Scenarios.pillow
                     (Returns [[0; 0; STITCH]; [65401; 0; STITCH]])
  = Raises (ConversionError
              "Conversion error: Maximum supported image dimension is 65500 pixels").
Proof. vm_compute. reflexivity. Qed.

(** A negative configured width makes the scale negative, and with it the
    width of the canvas: the image is not created. *)
Lemma negative_canvas_is_not_created :
  convert_pes_to_jpg (mkConfig (-12, 600) "white") Scenarios.pillow
                     (Returns [[0; 0; STITCH]; [1000; 100; STITCH]])
  = Raises (ConversionError "Conversion error: Width and height must be >= 0").
Proof. vm_compute. reflexivity. Qed.

(** X14. Once the pattern is read, the conversion returns [False]
    without an image exactly when no stitch carries two coordinates (the
    empty pattern included); it returns [True] only after the image was
    created, the output directory made and the image saved; and whatever
    it raises is a [ConversionError] with the prefixed message. *)
Theorem conversion_fails_iff_no_coordinates (cfg : Config) (pil : Pil)
        (stitches : list stitch) :
  (convert_pes_to_jpg cfg pil (Returns stitches) = Returns None
   ↔ Forall (λ s, (length s < 2)%nat) stitches)
  ∧ (∀ img, convert_pes_to_jpg cfg pil (Returns stitches) = Returns (Some img) →
       Image_new pil (img_width img) (img_height img) (background_color cfg)
       = Returns tt
       ∧ mkdir pil = Returns tt
       ∧ save pil img = Returns tt)
  ∧ (∀ e, convert_pes_to_jpg cfg pil (Returns stitches) = Raises e →
       ∃ cause, render cfg pil stitches = Raises cause
                ∧ e = ConversionError ("Conversion error: " +:+ str_exn cause)).
Proof.
  unfold convert_pes_to_jpg. run.
  split; [|split].
  - rewrite <- x_coords_nil_iff. split.
    + destruct (render cfg pil stitches) as [[img|]|] eqn:Er; cbn [try_except];
        try discriminate.
      intros _.
      assert (Hd : x_coords stitches = [] ∨ x_coords stitches ≠ [])
        by (destruct (x_coords stitches); [left|right]; congruence).
      destruct Hd as [Hd|Hd]; [exact Hd|].
      now apply (render_not_none cfg pil) in Hd.
    + intros H. now rewrite render_none.
  - intros img. destruct (render cfg pil stitches) as [r|] eqn:Er; cbn [try_except];
      [|discriminate].
    intros [= ->]. destruct (render_returns _ _ _ _ Er) as (_ & H1 & H2 & H3 & _).
    auto.
  - intros e. destruct (render cfg pil stitches) as [r|cause]; cbn [try_except];
      [discriminate|].
    intros [= <-]. eauto.
Qed.

End RenderFacts.

(* ===================================================================== *)
(** ** The scale factor and the canvas (claim C7)                         *)
(* ===================================================================== *)

Module CanvasClaims.
Import Py Converter Spec Rounding FloatFacts ConverterFacts RenderFacts.








End CanvasClaims.

Module DrawingFacts.
Import Py Converter Spec Props ConverterFacts RenderFacts.

(** *** Runs of plain stitches *)

Lemma plain_stitch_draw_segment s : plain_stitch s = true ↔ is_draw_segment s.
Proof.
  unfold is_draw_segment. destruct s as [|x [|y [|c rest]]]; simpl;
    try (split; discriminate); [tauto|].
  rewrite Z.eqb_eq. split; congruence.
Qed.

Lemma draw_step_plain min_x min_y scale i st s :
  plain_stitch s = true →
  (∃ e, transformed min_x min_y scale s = Raises e
        ∧ draw_step min_x min_y scale i st s = Raises e)
  ∨ (∃ q, transformed min_x min_y scale s = Returns (Some q)
          ∧ draw_step min_x min_y scale i st s
            = Returns (mkPen (Some q) (stitch_color st)
                             (drawn st ++ match prev_point st with
                                          | Some p => [mkLine p q (stitch_color st) 2]
                                          | None => []
                                          end))).
Proof.
  intros Hs.
  assert (Hc : ∃ x y rest, s = x :: y :: rest
                           ∧ match rest with c :: _ => c | [] => STITCH end = STITCH).
  { destruct s as [|x [|y [|c rest]]]; try discriminate.
    - exists x, y, []. auto.
    - simpl in Hs. apply Z.eqb_eq in Hs as ->. exists x, y, (STITCH :: rest). auto. }
  destruct Hc as (x & y & rest & -> & Hc). cbn [transformed draw_step]. rewrite Hc.
  destruct (adjust min_x scale x) as [ax|e]; run; [|left; eauto].
  destruct (adjust min_y scale y) as [ay|e]; run; [|left; eauto].
  right. exists (ax, ay). split; [reflexivity|]. cbn.
  destruct (prev_point st); [reflexivity|now rewrite app_nil_r].
Qed.

(** X17. A run of plain stitch commands draws the polyline through the
    anchor (if there is one) and the canvas points of the run, in the
    current stroke color, and leaves that color unchanged; its last point
    is the new anchor.  It raises exactly when the conversion of one of
    its coordinates does. *)
Theorem plain_stitches_draw_polyline (min_x min_y : Z) (scale : float) (i : Z)
        (l : list stitch) (st : pen) :
  forallb plain_stitch l = true →
  draw_stitches min_x min_y scale i l st
  = (points ← canvas_points min_x min_y scale l;
     Returns (mkPen (match last points with
                     | Some q => Some q
                     | None => prev_point st
                     end)
                    (stitch_color st)
                    (drawn st ++ polyline (stitch_color st)
                                          (option_list (prev_point st) ++ points)))).
Proof.
  revert i st. induction l as [|s l IH]; intros i st Hall.
  - cbn [draw_stitches canvas_points]. run. cbn [last]. rewrite app_nil_r.
    destruct st as [[p|] c d]; cbn; now rewrite app_nil_r.
  - cbn [forallb] in Hall. apply andb_prop in Hall as [Hs Hall].
    cbn [draw_stitches canvas_points].
    destruct (draw_step_plain min_x min_y scale i st s Hs)
      as [(e & He & E)|(q & Hq & E)]; rewrite E; [rewrite He; reflexivity|].
    rewrite Hq. run. rewrite (IH _ _ Hall).
    destruct (canvas_points min_x min_y scale l) as [points|e]; run; [|reflexivity].
    cbn [prev_point stitch_color drawn]. change (option_list (Some q)) with [q].
    cbn [app]. rewrite last_cons. f_equal. f_equal.
    + destruct (last points); reflexivity.
    + destruct (prev_point st) as [p|]; cbn [option_list option_rect app polyline].
      * now rewrite <- app_assoc.
      * now rewrite app_nil_r.
Qed.

Lemma plain_stitches_draw_polyline_witness :
  draw_stitches 0 0 1 0 [[0; 0]; [10; 0; STITCH]; [10; 10; STITCH]] initial_pen
  = Returns (mkPen (Some (60, 60)) "black"
                   [mkLine (50, 50) (60, 50) "black" 2;
                    mkLine (60, 50) (60, 60) "black" 2]).
Proof.
  refine (eq_trans
            (plain_stitches_draw_polyline 0 0 1 0
               [[0; 0]; [10; 0; STITCH]; [10; 10; STITCH]] initial_pen _) _).
  - reflexivity.
  - reflexivity.
Defined.

(** *** What every line looks like *)

Lemma palette_entry_in_palette k : In (palette_entry k) colors.
Proof.
  unfold palette_entry. apply nth_In.
  change (length colors) with 6%nat.
  pose proof (Z.mod_pos_bound k (Z.of_nat 6) ltac:(lia)). lia.
Qed.

Lemma draw_step_color min_x min_y scale i st s st' :
  draw_step min_x min_y scale i st s = Returns st' →
  stitch_color st' = stitch_color st ∨ stitch_color st' = palette_entry (i / 100).
Proof.
  destruct s as [|x [|y rest]]; cbn [draw_step];
    [intros [= <-]; now left..|].
  destruct (adjust min_x scale x); run; [|discriminate].
  destruct (adjust min_y scale y); run; [|discriminate].
  destruct (_ =? COLOR_CHANGE); [intros [= <-]; right; reflexivity|].
  destruct (_ =? JUMP); [intros [= <-]; left; reflexivity|].
  destruct (_ || _); intros [= <-]; left; reflexivity.
Qed.

Lemma strokes_invariant min_x min_y scale (l : list stitch) :
  ∀ i st after,
    draw_stitches min_x min_y scale i l st = Returns after →
    In (stitch_color st) colors →
    Forall (λ ln, width ln = 2 ∧ In (fill ln) colors) (drawn st) →
    Forall (λ ln, width ln = 2 ∧ In (fill ln) colors) (drawn after)
    ∧ (length (drawn after)
       <= length (drawn st) + length (List.filter plain_stitch l))%nat.
Proof.
  induction l as [|s l IH]; intros i st after Hafter Hc Hd.
  - cbn [draw_stitches] in Hafter. injection Hafter as <-. cbn. split; [exact Hd|lia].
  - cbn [draw_stitches List.filter] in *.
    destruct (draw_step min_x min_y scale i st s) as [st'|] eqn:Es; run;
      [|discriminate].
    destruct (draw_step_shape _ _ _ _ _ _ _ Es) as (op & _ & _ & Hl).
    assert (Hc' : In (stitch_color st') colors).
    { destruct (draw_step_color _ _ _ _ _ _ _ Es) as [-> | ->];
        [exact Hc|apply palette_entry_in_palette]. }
    destruct Hl as [Hl|(p & q & _ & _ & Hs & Hl)].
    + destruct (IH _ _ _ Hafter Hc') as [H1 H2].
      { now rewrite Hl. }
      split; [exact H1|]. rewrite Hl in H2.
      destruct (plain_stitch s); cbn [length]; lia.
    + destruct (IH _ _ _ Hafter Hc') as [H1 H2].
      { rewrite Hl. apply Forall_app. split; [exact Hd|].
        constructor; [|constructor]. cbn. auto. }
      split; [exact H1|]. rewrite Hl, length_app in H2.
      apply plain_stitch_draw_segment in Hs. rewrite Hs. cbn [length] in *. lia.
Qed.

(** X18. Every line of a rendered image is two pixels wide and has one
    of the six palette colors, and there are at most as many lines as
    there are plain stitch commands: jumps, trims, stops and color changes
    never draw. *)
Theorem image_lines_are_palette_strokes (cfg : Config) (pil : Pil)
        (stitches : list stitch) (img : Image) :
  render cfg pil stitches = Returns (Some img) →
  Forall (λ ln, width ln = 2 ∧ In (fill ln) colors) (lines img)
  ∧ (length (lines img) <= length (List.filter plain_stitch stitches))%nat.
Proof.
  intros Hr.
  destruct (render_returns _ _ _ _ Hr)
    as (_ & _ & _ & _ & _ & scale & st & _ & _ & _ & Hd & ->).
  apply (strokes_invariant _ _ _ _ _ _ _ Hd); [left; reflexivity|constructor].
Qed.

Lemma image_lines_are_palette_strokes_witness :
  Nat.le (length [mkLine (50, 50) (750, 300) "black" 2])
         (length (List.filter plain_stitch [[0; 0; STITCH]; [1400; 500; STITCH]])).
Proof.
  refine (proj2 (image_lines_are_palette_strokes default_config Scenarios.pillow
            [[0; 0; STITCH]; [1400; 500; STITCH]]
            (mkImage 800 350 "white" [mkLine (50, 50) (750, 300) "black" 2]) _)).
  vm_compute. reflexivity.
Defined.

End DrawingFacts.

(* ===================================================================== *)
(** ** More on the batch                                                  *)
(* ===================================================================== *)

Module BatchFacts.
Import Py Domain Spec Props Service StrategyFacts RetryFacts ServiceFacts.

(** An invariant of the loop body is an invariant of the loop. *)
Lemma loop_invariant w sa (I : Results * State → Prop) :
  (∀ idx acc file, I acc → I (loop_body w sa idx acc file)) →
  ∀ files idx acc, I acc → I (loop w sa idx files acc).
Proof.
  intros Hbody. induction files as [|f rest IH]; intros idx acc Hacc; [exact Hacc|].
  cbn [loop]. apply IH. now apply Hbody.
Qed.

(** The three ways one file ends, with the state and the file they leave. *)
Lemma process_cases w n st file :
  let temp := _create_temp_jpg_path w (file_name file) in
  (_process_single_file w n (st, file)
   = (Returns false,
      (mkState (temp_images st ++ [temp]) (disk st) (calls st ++ [CallConvert n]),
       file)))
  ∨ (_process_single_file w n (st, file)
     = (Returns false,
        (mkState (temp_images st ++ [temp]) ({[temp]} ∪ disk st)
                 (calls st ++ [CallConvert n; CallCategorize n]),
         set_jpg_path file temp)))
  ∨ (∃ c, normalized (name c)
          ∧ _process_single_file w n (st, file)
            = (Returns (copy_ok (file_env w n)),
               (mkState (temp_images st ++ [temp]) ({[temp]} ∪ disk st)
                        (calls st ++ [CallConvert n; CallCategorize n;
                                      CallCopy n (name c)]),
                assign_category (set_jpg_path file temp) c))).
Proof.
  cbv zeta. destruct (convert (file_env w n)) as [[|]|e] eqn:Hc.
  - destruct (Strategy.probe (backend (file_env w n))) eqn:Hp.
    + right. right. destruct (process_rendered w n st file Hc Hp) as (c & Hcat & E).
      exists c. split.
      * destruct Hcat as [Hcat|[_ ->]]; [|apply other_normalized].
        unfold Strategy.categorize_image in Hcat. cbn [negb] in Hcat.
        destruct (Strategy.image_readable _); cbn [negb] in Hcat.
        -- exact (proj1 (attempts_normalized _ _ _ c Hcat)).
        -- rewrite other_returns in Hcat. cbn [mbind result_bind bind] in Hcat.
           injection Hcat as <-. apply other_normalized.
      * rewrite E. now rewrite <- !app_assoc.
    + right. left. rewrite (process_probe_fails w n st file Hc Hp).
      now rewrite <- !app_assoc.
  - left. apply process_not_rendered. congruence.
  - left. apply process_not_rendered. congruence.
Qed.

(** What one turn of the loop does to the results and the state. *)
Lemma loop_body_cases w sa idx r st file :
  let temp := _create_temp_jpg_path w (file_name file) in
  (skipped sa idx = true ∧ loop_body w sa idx (r, st) file = (r, st))
  ∨ (skipped sa idx = false
     ∧ ∃ g dsk,
         ordered_calls idx g
         ∧ disk st ⊆ dsk ∧ dsk ⊆ {[temp]} ∪ disk st
         ∧ (loop_body w sa idx (r, st) file
            = (mkResults (total_files r) (processed_files r) (failed_files r + 1)
                         (categories_found r) (errors r) (skipped_files r),
               mkState (temp_images st ++ [temp]) dsk (calls st ++ g))
            ∨ ∃ c, normalized (name c)
                   ∧ loop_body w sa idx (r, st) file
                     = (mkResults (total_files r) (processed_files r + 1)
                                  (failed_files r) ({[name c]} ∪ categories_found r)
                                  (errors r) (skipped_files r),
                        mkState (temp_images st ++ [temp]) dsk (calls st ++ g)))).
Proof.
  cbv zeta. unfold loop_body.
  change (match sa with Some n => idx <=? n | None => false end) with (skipped sa idx).
  destruct (skipped sa idx); [left; auto|right]. split; [reflexivity|].
  destruct (process_cases w idx st file) as [E|[E|(c & Hn & E)]]; rewrite E.
  - exists [CallConvert idx], (disk st).
    split; [left; reflexivity|]. split; [reflexivity|].
    split; [set_solver|]. left. reflexivity.
  - exists [CallConvert idx; CallCategorize idx],
      ({[_create_temp_jpg_path w (file_name file)]} ∪ disk st).
    split; [right; left; reflexivity|]. split; [set_solver|].
    split; [reflexivity|]. left. reflexivity.
  - exists [CallConvert idx; CallCategorize idx; CallCopy idx (name c)],
      ({[_create_temp_jpg_path w (file_name file)]} ∪ disk st).
    split; [right; right; eexists; reflexivity|]. split; [set_solver|].
    split; [reflexivity|].
    destruct (copy_ok (file_env w idx)); [right; exists c; split; [exact Hn|reflexivity]|].
    left. reflexivity.
Qed.

Lemma filter_all_ok (f : FilePath → bool) (l : list FilePath) :
  (∀ p, f p = true) → List.filter f l = l.
Proof.
  intros H. induction l as [|p l IH]; [reflexivity|]. cbn. now rewrite H, IH.
Qed.

(** While the loop runs, whatever is on the disk was there before or is
    on the cleanup list. *)
Lemma loop_disk_bounded w sa (D0 : gset FilePath) files idx acc :
  disk (snd acc) ⊆ D0 ∪ list_to_set (temp_images (snd acc)) →
  disk (snd (loop w sa idx files acc))
  ⊆ D0 ∪ list_to_set (temp_images (snd (loop w sa idx files acc))).
Proof.
  apply (loop_invariant w sa
           (λ acc, disk (snd acc) ⊆ D0 ∪ list_to_set (temp_images (snd acc)))).
  clear. intros idx [r st] file Hacc. cbn [snd] in Hacc.
  destruct (loop_body_cases w sa idx r st file)
    as [[_ E]|(_ & g & dsk & _ & _ & Hup & [E|(c & _ & E)])];
    rewrite E; cbn [snd temp_images disk]; [exact Hacc|..];
    rewrite list_to_set_app_L; intros x Hx; apply Hup in Hx;
    apply elem_of_union in Hx as [Hx|Hx];
    [apply elem_of_union_r, elem_of_union_r; cbn; now apply elem_of_union_l
    |apply Hacc, elem_of_union in Hx as [Hx|Hx];
     [now apply elem_of_union_l|now apply elem_of_union_r, elem_of_union_l]
    |apply elem_of_union_r, elem_of_union_r; cbn; now apply elem_of_union_l
    |apply Hacc, elem_of_union in Hx as [Hx|Hx];
     [now apply elem_of_union_l|now apply elem_of_union_r, elem_of_union_l]].
Qed.

Lemma cleanup_disk_bounded w st (D0 : gset FilePath) :
  (∀ p, unlink_ok w p = true) →
  disk st ⊆ D0 ∪ list_to_set (temp_images st) →
  disk (_cleanup_temp_images w st) ⊆ D0.
Proof.
  intros Hok Hd. unfold _cleanup_temp_images.
  destruct (temp_images st) as [|p l] eqn:E.
  - intros x Hx. apply Hd, elem_of_union in Hx as [Hx|Hx]; [exact Hx|].
    now apply elem_of_empty in Hx.
  - cbn [disk]. rewrite (filter_all_ok _ _ Hok).
    intros x [Hx Hn]%elem_of_difference.
    apply Hd, elem_of_union in Hx as [Hx|Hx]; [exact Hx|contradiction].
Qed.

Lemma every_file_counted_once_aux w st :
  processed_files (fst (categorize_files_in_directory w None st))
  + failed_files (fst (categorize_files_in_directory w None st))
  = total_files (fst (categorize_files_in_directory w None st))
  ∧ 0 <= failed_files (fst (categorize_files_in_directory w None st)).
Proof.
  unfold categorize_files_in_directory.
  destruct (available w); cbn [negb]; [|cbn; lia].
  destruct (find_pes_files w) as [files|e]; [|cbn; lia].
  destruct files as [|f rest]; [cbn; lia|].
  set (acc := (_, st)).
  pose proof (loop_effects_all w None (f :: rest) 1 acc) as L.
  destruct (loop w None 1 (f :: rest) acc) as [r s].
  pose proof (le_count _ _ _ _ _ _ L) as Hc. pose proof (le_total _ _ _ _ _ _ L) as Ht.
  pose proof (le_failed _ _ _ _ _ _ L) as Hf.
  rewrite preview_paths_all in Hc. subst acc. cbn [fst snd] in *.
  cbn [with_skipped with_total initial_results total_files processed_files failed_files]
    in *.
  lia.
Qed.

(** X19. Without a resume index every discovered file is counted exactly
    once: processed plus failed equals the total, whatever happens to the
    individual files (also when the batch aborts, with all three zero);
    and when the scan succeeds the total is the number of files found. *)
Theorem every_file_counted_once (w : World) (st : State) :
  let r := fst (categorize_files_in_directory w None st) in
  processed_files r + failed_files r = total_files r
  ∧ 0 <= processed_files r
  ∧ 0 <= failed_files r
  ∧ (∀ files, available w = true → find_pes_files w = Returns files →
              total_files r = Z.of_nat (length files)).
Proof.
  cbv zeta. unfold categorize_files_in_directory.
  destruct (available w); cbn [negb];
    [|cbn; repeat split; try lia; discriminate].
  destruct (find_pes_files w) as [files|e];
    [|cbn; repeat split; try lia; discriminate].
  destruct files as [|f rest].
  { cbn. repeat split; try lia. intros files _ [= <-]. reflexivity. }
  set (acc := (_, st)).
  pose proof (loop_effects_all w None (f :: rest) 1 acc) as L.
  destruct (loop w None 1 (f :: rest) acc) as [r s].
  pose proof (le_count _ _ _ _ _ _ L) as Hc. pose proof (le_total _ _ _ _ _ _ L) as Ht.
  pose proof (le_failed _ _ _ _ _ _ L) as Hf. pose proof (le_processed _ _ _ _ _ _ L) as Hp.
  rewrite preview_paths_all in Hc. subst acc. cbn [fst snd] in *.
  cbn [with_skipped with_total initial_results total_files processed_files failed_files]
    in *.
  repeat split; try lia. intros files _ [= <-]. lia.
Qed.

Lemma every_file_counted_once_witness :
  total_files (fst (categorize_files_in_directory Scenarios.three_designs None
                      Scenarios.fresh)) = 3.
Proof.
  apply (proj2 (proj2 (proj2 (every_file_counted_once Scenarios.three_designs
                                Scenarios.fresh)))
           [Scenarios.design "empty"; Scenarios.design "rose"; Scenarios.design "locked"]);
    reflexivity.
Defined.

(** X20. Without a resume index the use case reports success exactly when
    at least one file was processed to the end. *)
Theorem success_iff_some_file_processed (env : UseCase.Env) (input_directory : string)
        (st : State) :
  let report := fst (UseCase.execute env input_directory None st) in
  UseCase.success report = true ↔ 0 < processed_files (UseCase.results report).
Proof.
  cbv zeta. unfold UseCase.execute.
  destruct (UseCase.input_exists env); cbn [negb]; [|cbn; split; [discriminate|lia]].
  destruct (UseCase.input_is_directory env); cbn [negb];
    [|cbn; split; [discriminate|lia]].
  destruct (UseCase.mkdir env) as [[]|e]; [|cbn; split; [discriminate|lia]].
  pose proof (every_file_counted_once_aux (UseCase.world env) st) as H.
  destruct (categorize_files_in_directory (UseCase.world env) None st) as [r s].
  cbn [fst UseCase.success UseCase.results] in *. rewrite Z.ltb_lt. lia.
Qed.

End BatchFacts.

Module BatchExtras.
Import Py Domain Spec Props Service StrategyFacts RetryFacts ServiceFacts BatchFacts.

Lemma success_iff_some_file_processed_witness :
  UseCase.success
    (fst (UseCase.execute (Scenarios.env_of Scenarios.three_designs) "designs" None
                          Scenarios.fresh)) = true.
Proof.
  apply (proj2 (success_iff_some_file_processed
                  (Scenarios.env_of Scenarios.three_designs) "designs" Scenarios.fresh)).
  vm_compute. reflexivity.
Defined.

(** X21. A resume index at or beyond the number of discovered files skips
    them all: nothing is converted, classified or copied, both counters
    stay at zero, and since zero failures are fewer than the total the
    batch counts as a success. *)
Theorem resume_past_the_end (w : World) (n : Z) (st : State)
        (files : list EmbroideryFile) :
  available w = true →
  find_pes_files w = Returns files →
  files ≠ [] →
  Z.of_nat (length files) <= n →
  let out := categorize_files_in_directory w (Some n) st in
  processed_files (fst out) = 0
  ∧ failed_files (fst out) = 0
  ∧ total_files (fst out) = Z.of_nat (length files)
  ∧ skipped_files (fst out) = Some n
  ∧ categories_found (fst out) = ∅
  ∧ errors (fst out) = []
  ∧ calls (snd out) = calls st
  ∧ failed_files (fst out) < total_files (fst out).
Proof.
  intros Ha Hf Hne Hn. cbv zeta.
  unfold categorize_files_in_directory. rewrite Ha, Hf. cbn [negb].
  destruct files as [|f rest] eqn:Ef; [congruence|].
  rewrite loop_all_skipped by lia.
  cbn [fst snd with_skipped with_total initial_results total_files processed_files
       failed_files errors skipped_files categories_found].
  rewrite cleanup_keeps_calls. repeat split; try reflexivity; cbn [length]; lia.
Qed.

Lemma resume_past_the_end_witness :
  processed_files
    (fst (categorize_files_in_directory Scenarios.two_designs (Some 5) Scenarios.fresh))
  = 0.
Proof.
  refine (proj1 (resume_past_the_end Scenarios.two_designs 5 Scenarios.fresh
                   [Scenarios.design "rose"; Scenarios.design "tulip"] _ _ _ _)).
  - reflexivity.
  - reflexivity.
  - discriminate.
  - cbn. lia.
Defined.

(** X22. When every preview can be unlinked and no cleanup is pending at
    the start, a batch, however it ends, leaves the cleanup list empty and
    no preview on the disk that was not there before. *)
Theorem batch_leaves_no_preview (w : World) (start_after : option Z) (st : State) :
  (∀ p, unlink_ok w p = true) →
  temp_images st = [] →
  let st' := snd (categorize_files_in_directory w start_after st) in
  temp_images st' = [] ∧ disk st' ⊆ disk st.
Proof.
  intros Hok Hempty. cbv zeta.
  assert (Hidle : _cleanup_temp_images w st = st).
  { unfold _cleanup_temp_images. now rewrite Hempty. }
  unfold categorize_files_in_directory.
  destruct (available w); cbn [negb];
    [|cbn [abort snd]; rewrite Hidle; split; [exact Hempty|reflexivity]].
  destruct (find_pes_files w) as [files|e];
    [|cbn [abort snd]; rewrite Hidle; split; [exact Hempty|reflexivity]].
  destruct files as [|f rest]; [split; [exact Hempty|reflexivity]|].
  set (acc := (_, st)).
  pose proof (loop_disk_bounded w start_after (disk st) (f :: rest) 1 acc) as Hb.
  destruct (loop w start_after 1 (f :: rest) acc) as [r s]. cbn [snd] in *.
  split; [apply cleanup_empties|].
  apply cleanup_disk_bounded; [exact Hok|]. apply Hb.
  intros x Hx. now apply elem_of_union_l.
Qed.

Lemma batch_leaves_no_preview_witness :
  disk (snd (categorize_files_in_directory Scenarios.three_designs None Scenarios.fresh))
  ⊆ disk Scenarios.fresh.
Proof.
  refine (proj2 (batch_leaves_no_preview Scenarios.three_designs None Scenarios.fresh _ _)).
  - intros p. reflexivity.
  - reflexivity.
Defined.

(** X23. The use case reports success only if the input directory exists
    and is a directory, the output directory could be created, the
    classification service was available and the scan returned at least
    one file; the report then carries no error. *)
Theorem success_needs_every_precondition (env : UseCase.Env)
        (input_directory : string) (start_after : option Z) (st : State) :
  let report := fst (UseCase.execute env input_directory start_after st) in
  UseCase.success report = true →
  UseCase.input_exists env = true
  ∧ UseCase.input_is_directory env = true
  ∧ (∃ u, UseCase.mkdir env = Returns u)
  ∧ available (UseCase.world env) = true
  ∧ (∃ files, find_pes_files (UseCase.world env) = Returns files ∧ files ≠ [])
  ∧ errors (UseCase.results report) = []
  ∧ UseCase.error report = None.
Proof.
  cbv zeta. unfold UseCase.execute.
  destruct (UseCase.input_exists env); cbn [negb]; [|discriminate].
  destruct (UseCase.input_is_directory env); cbn [negb]; [|discriminate].
  destruct (UseCase.mkdir env) as [u|e]; [|discriminate].
  unfold categorize_files_in_directory.
  destruct (available (UseCase.world env)); cbn [negb]; [|discriminate].
  destruct (find_pes_files (UseCase.world env)) as [files|e]; [|discriminate].
  destruct files as [|f rest]; [discriminate|].
  set (acc := (_, st)).
  pose proof (le_errors _ _ _ _ _ _
                (loop_effects_all (UseCase.world env) start_after (f :: rest) 1 acc)) as He.
  destruct (loop (UseCase.world env) start_after 1 (f :: rest) acc) as [r s].
  cbn [fst UseCase.success UseCase.results UseCase.error] in *. intros _.
  repeat split; eauto.
  rewrite He. subst acc. destruct start_after; reflexivity.
Qed.

Lemma success_needs_every_precondition_witness :
  available Scenarios.three_designs = true.
Proof.
  refine (proj1 (proj2 (proj2 (proj2
    (success_needs_every_precondition (Scenarios.env_of Scenarios.three_designs)
       "designs" None Scenarios.fresh _))))).
  vm_compute. reflexivity.
Defined.

Lemma size_add (x : string) (X : gset string) : (size ({[x]} ∪ X) <= 1 + size X)%nat.
Proof.
  rewrite size_union_alt, size_singleton.
  assert (size (X ∖ {[x]}) <= size X)%nat; [|lia].
  apply subseteq_size. intros y Hy. now apply elem_of_difference in Hy as [Hy _].
Qed.

(** X24. A batch reports no more distinct categories than it has
    processed files. *)
Theorem categories_no_more_than_processed (w : World) (start_after : option Z)
        (st : State) :
  let r := fst (categorize_files_in_directory w start_after st) in
  Z.of_nat (size (categories_found r)) <= processed_files r.
Proof.
  cbv zeta.
  set (I := λ acc : Results * State,
              Z.of_nat (size (categories_found (fst acc))) <= processed_files (fst acc)).
  assert (Hinit : ∀ r0 : Results,
             categories_found r0 = ∅ → processed_files r0 = 0 → ∀ s, I (r0, s)).
  { intros r0 Hc Hp s. unfold I. cbn [fst]. rewrite Hc, Hp.
    rewrite size_empty. lia. }
  assert (Hbody : ∀ idx acc file, I acc → I (loop_body w start_after idx acc file)).
  { intros idx [r s] file Hs. unfold I in Hs. cbn [fst] in Hs.
    destruct (loop_body_cases w start_after idx r s file)
      as [[_ E]|(_ & g & dsk & _ & _ & _ & [E|(c & Hc & E)])]; rewrite E; unfold I;
      cbn [fst categories_found processed_files]; [auto|auto|].
    pose proof (size_add (name c) (categories_found r)). lia. }
  unfold categorize_files_in_directory.
  destruct (available w); cbn [negb]; [|now apply Hinit].
  destruct (find_pes_files w) as [files|e]; [|now apply Hinit].
  destruct files as [|f rest]; [now apply Hinit|].
  set (acc := (_, st)).
  assert (Hacc : I acc) by (subst acc; destruct start_after; now apply Hinit).
  pose proof (loop_invariant w start_after I Hbody (f :: rest) 1 acc Hacc) as H.
  destruct (loop w start_after 1 (f :: rest) acc) as [r s]. exact H.
Qed.




End BatchExtras.

Module PipelineFacts.
Import Py Domain Spec Props Service StrategyFacts ServiceFacts ConverterFacts RenderFacts BatchFacts.




(** X27. When the input directory is in order but the classification
    service is unavailable at the start, or the scan raises, the batch
    stops before any file is touched: no call is made, the three counters
    are zero, the message is the only entry of the error list, pending
    previews are cleaned up, and the report is a failure that carries no
    [error] key. *)
Theorem hard_failure_touches_no_file (env : UseCase.Env) (input_directory : string)
        (start_after : option Z) (st : State) :
  UseCase.input_exists env = true →
  UseCase.input_is_directory env = true →
  (∃ u, UseCase.mkdir env = Returns u) →
  available (UseCase.world env) = false ∨ raised (find_pes_files (UseCase.world env)) →
  let out := UseCase.execute env input_directory start_after st in
  let r := UseCase.results (fst out) in
  UseCase.success (fst out) = false
  ∧ UseCase.error (fst out) = None
  ∧ total_files r = 0 ∧ processed_files r = 0 ∧ failed_files r = 0
  ∧ (∃ msg, errors r = [msg]
            ∧ (available (UseCase.world env) = false →
               msg = "Categorization service is not available"%string))
  ∧ skipped_files r = None
  ∧ calls (snd out) = calls st
  ∧ temp_images (snd out) = [].
Proof.
  intros He Hd [u Hm] Hfail. cbv zeta.
  unfold UseCase.execute. rewrite He, Hd, Hm. cbn [negb].
  unfold categorize_files_in_directory.
  destruct (available (UseCase.world env)) eqn:Ha; cbn [negb].
  - destruct Hfail as [Hfail|[e Hfail]]; [discriminate|]. rewrite Hfail.
    cbn. rewrite cleanup_keeps_calls, cleanup_empties.
    repeat split; try reflexivity. exists (str_exn e). split; [reflexivity|discriminate].
  - cbn. rewrite cleanup_keeps_calls, cleanup_empties.
    repeat split; try reflexivity. eexists. split; reflexivity.
Qed.

Lemma hard_failure_touches_no_file_witness :
  UseCase.success
    (fst (UseCase.execute
            (UseCase.mkEnv true true (Returns tt)
               (mkWorld "/tmp/" (λ n, n) false (Returns []) (λ _, Scenarios.fine "x")
                        (λ _, true) 3))
            "designs" None Scenarios.fresh))
  = false.
Proof.
  refine (proj1 (hard_failure_touches_no_file
            (UseCase.mkEnv true true (Returns tt)
               (mkWorld "/tmp/" (λ n, n) false (Returns []) (λ _, Scenarios.fine "x")
                        (λ _, true) 3))
            "designs" None Scenarios.fresh _ _ _ _)).
  - reflexivity.
  - reflexivity.
  - exists tt. reflexivity.
  - left. reflexivity.
Defined.

End PipelineFacts.
